(** * fentoimage.boardgen: rendering a chess position to a raster image

    A shallow embedding of [src/fentoimage/boardgen.py].  The two classes of
    the module, [PieceImage] (the glyph provider with its two-tier cache) and
    [FenToImage] (the board renderer), are translated method by method into
    a state-and-exception monad.  The mutable Python objects become records
    threaded through that monad; the file system and the external rasterizer
    process are an explicit [World]. *)

From Stdlib Require Import ZArith String Ascii List Lia DecimalString.
From stdpp Require Import base gmap strings list.

Local Open Scope string_scope.
Local Open Scope Z_scope.

(** ** Python values *)

(** Exceptions the module can raise, directly or through the libraries it
    calls. *)
Inductive exn : Type :=
  | RuntimeError (msg : string)
  | IndexError
  | ValueError
  | AttributeError
  | FileNotFoundError
  | NotADirectoryError
  | IsADirectoryError
  | UnidentifiedImageError.

Inductive result (A : Type) : Type :=
  | Ok (a : A)
  | Raise (e : exn).
Arguments Ok {A} a.
Arguments Raise {A} e.

(** [seq[i]] on a Python sequence: negative indices count from the end,
    anything else out of range raises [IndexError] ([None] here). *)
Definition py_getitem {A : Type} (l : list A) (i : Z) : option A :=
  let n := Z.of_nat (length l) in
  if (0 <=? i) && (i <? n) then l !! Z.to_nat i
  else if (- n <=? i) && (i <? 0) then l !! Z.to_nat (n + i)
  else None.

(** [s[i]] on a [str]: a one-character string. *)
Definition py_str_getitem (s : string) (i : Z) : option string :=
  (fun c => String c EmptyString) <$> py_getitem (list_ascii_of_string s) i.

(** [str(n)] for an [int]. *)
Definition py_str (n : Z) : string := NilZero.string_of_int (Z.to_int n).

Definition ascii_is_lower (c : ascii) : bool :=
  let n := nat_of_ascii c in (97 <=? n)%nat && (n <=? 122)%nat.
Definition ascii_is_upper (c : ascii) : bool :=
  let n := nat_of_ascii c in (65 <=? n)%nat && (n <=? 90)%nat.
Definition ascii_upper (c : ascii) : ascii :=
  if ascii_is_lower c then ascii_of_nat (nat_of_ascii c - 32) else c.

(** [str.islower()]: at least one cased character and no uppercase one. *)
Definition py_islower (s : string) : bool :=
  let cs := list_ascii_of_string s in
  existsb ascii_is_lower cs && negb (existsb ascii_is_upper cs).

(** [str.upper()]. *)
Definition py_upper (s : string) : string :=
  string_of_list_ascii (map ascii_upper (list_ascii_of_string s)).

(** ** python-chess: pieces and squares *)

Inductive PieceType : Type := PAWN | KNIGHT | BISHOP | ROOK | QUEEN | KING.

(** [chess.Piece]; [color = true] is [chess.WHITE]. *)
Record Piece : Type := { piece_type : PieceType; color : bool }.

Definition piece_symbol (pt : PieceType) : string :=
  match pt with
  | PAWN => "p" | KNIGHT => "n" | BISHOP => "b"
  | ROOK => "r" | QUEEN => "q" | KING => "k"
  end.

(** [Piece.symbol()]: upper case for white, lower case for black. *)
Definition symbol (p : Piece) : string :=
  if color p then py_upper (piece_symbol (piece_type p))
  else piece_symbol (piece_type p).

Definition all_piece_types : list PieceType :=
  [PAWN; KNIGHT; BISHOP; ROOK; QUEEN; KING].

(** The 12 piece identities. *)
Definition all_pieces : list Piece :=
  map (fun pt => {| piece_type := pt; color := true |}) all_piece_types ++
  map (fun pt => {| piece_type := pt; color := false |}) all_piece_types.

(** [chess.SQUARES = list(range(64))], a1 first. *)
Definition SQUARES : list Z := seqZ 0 64.

Definition square_file (sq : Z) : Z := Z.land sq 7.
Definition square_rank (sq : Z) : Z := Z.shiftr sq 3.

(** A position, seen through [Board.piece_at]. *)
Definition Board : Type := Z -> option Piece.

(** ** Pillow: images *)

Definition RGB : Type := (Z * Z * Z)%type.
Definition RGBA : Type := (Z * Z * Z * Z)%type.
Definition rgb_of (p : RGBA) : RGB := let '(r, g, b, _) := p in (r, g, b).
Definition alpha_of (p : RGBA) : Z := let '(_, _, _, a) := p in a.

(** A decoded glyph: an RGBA raster. *)
Record Image : Type := { iw : Z; ih : Z; ipix : Z -> Z -> RGBA }.

Inductive Anchor : Type := anchor_ls | anchor_rt.

(** A loaded font: the coverage (0..255) of the rendered text at an offset
    from the anchor point, [None] outside the text's bitmap. *)
Definition Font : Type := string -> Anchor -> Z -> Z -> option Z.

(** The drawing calls the renderer issues. *)
Inductive DrawOp : Type :=
  | Rectangle (x0 y0 x1 y1 : Z) (fill : RGB)
  | Text (x y : Z) (text : string) (fill : RGB) (anchor : Anchor) (font : Font)
  | Paste (im : Image) (x y : Z) (mask : Image).

(** The "RGB" canvas a board is drawn on: its size and the drawing calls
    made on it so far, latest first. *)
Record Canvas : Type := { cw : Z; ch : Z; ops : list DrawOp }.

Definition inside (c : Canvas) (x y : Z) : bool :=
  (0 <=? x) && (x <? cw c) && (0 <=? y) && (y <? ch c).

(** [Image.new(mode="RGB", size=(w, h))]: a black canvas; negative sizes are
    refused. *)
Definition Image_new (w h : Z) : result Canvas :=
  if (w <? 0) || (h <? 0) then Raise ValueError
  else Ok {| cw := w; ch := h; ops := [] |}.

Definition push (op : DrawOp) (c : Canvas) : Canvas :=
  {| cw := cw c; ch := ch c; ops := op :: ops c |}.

(** [ImageDraw.rectangle((x0, y0, x1, y1), fill=...)]: both corners belong
    to the rectangle. *)
Definition in_rect (x0 y0 x1 y1 x y : Z) : bool :=
  (x0 <=? x) && (x <=? x1) && (y0 <=? y) && (y <=? y1).

Section Pixels.

(** Pillow's compositing arithmetic: [blend m old new] mixes [new] over
    [old] with weight [m] (0..255). *)
Variable blend : Z -> RGB -> RGB -> RGB.

(** What one drawing call does to the pixel at [(x, y)]. *)
Definition apply_op (op : DrawOp) (x y : Z) (old : RGB) : RGB :=
  match op with
  | Rectangle x0 y0 x1 y1 fill =>
      if in_rect x0 y0 x1 y1 x y then fill else old
  | Text ax ay text fill anchor font =>
      match font text anchor (x - ax) (y - ay) with
      | Some m => blend m old fill
      | None => old
      end
  | Paste im bx by_ mask =>
      let dx := x - bx in
      let dy := y - by_ in
      if (0 <=? dx) && (dx <? iw im) && (0 <=? dy) && (dy <? ih im)
      then blend (alpha_of (ipix mask dx dy)) old (rgb_of (ipix im dx dy))
      else old
  end.

Definition pixel_of_ops (l : list DrawOp) (x y : Z) : RGB :=
  fold_right (fun op acc => apply_op op x y acc) (0, 0, 0) l.

(** [Image.getpixel((x, y))]; drawing is clipped to the canvas. *)
Definition getpixel (c : Canvas) (x y : Z) : option RGB :=
  if inside c x y then Some (pixel_of_ops (ops c) x y) else None.

End Pixels.

(** ** The file system and the rasterizer process *)

Abbreviation Path := (list string).

(** Paths are lists of components; [path / name] appends one. *)
Definition path_join (p : Path) (name : string) : Path := (p ++ [name])%list.

(** What a file or a pipe holds, as [Image.open] sees it: the PNG encoding
    of an image, or anything else. *)
Inductive Content : Type :=
  | Png (img : Image)
  | Garbage.

Inductive Node : Type :=
  | Dir
  | File (content : Content).

Inductive Arg : Type :=
  | AStr (s : string)
  | APath (p : Path).

(** A finished child process: its exit status and what [Popen.stdout]
    holds. *)
Record Proc : Type := { rcode : Z; stdout : option Content }.

Inductive Event : Type :=
  | EvList (p : Path)
  | EvStat (p : Path)
  | EvOpen (p : Path)
  | EvSpawn (args : list Arg).

(** The world outside the interpreter.  [os_exec] says how a spawned
    process ends, given everything that happened before; [None] means the
    executable could not be started.  [trace] records every file-system
    access and every process spawn, latest first. *)
Record World : Type := {
  module_dir : Path;
  fs : gmap Path Node;
  os_exec : list Event -> list Arg -> option Proc;
  trace : list Event
}.

Definition log (ev : Event) (w : World) : World :=
  {| module_dir := module_dir w; fs := fs w; os_exec := os_exec w;
     trace := ev :: trace w |}.

Definition is_spawn (ev : Event) : bool :=
  match ev with EvSpawn _ => true | _ => false end.

(** Number of rasterizer processes started so far. *)
Fixpoint count_spawns (tr : list Event) : nat :=
  match tr with
  | [] => O
  | ev :: rest => ((if is_spawn ev then 1 else 0) + count_spawns rest)%nat
  end.
Definition spawns (w : World) : nat := count_spawns (trace w).

(** ** The state-and-exception monad

    A computation runs on a state, ends normally or with an exception, and
    leaves a state behind in both cases: mutations made before a [raise]
    stay. *)
Definition M (S A : Type) : Type := S -> result A * S.

Definition ret {S A} (a : A) : M S A := fun s => (Ok a, s).
Definition raise {S A} (e : exn) : M S A := fun s => (Raise e, s).
Definition bind {S A B} (m : M S A) (k : A -> M S B) : M S B :=
  fun s => match m s with
           | (Ok a, s') => k a s'
           | (Raise e, s') => (Raise e, s')
           end.
Definition get {S} : M S S := fun s => (Ok s, s).
Definition modify {S} (f : S -> S) : M S unit := fun s => (Ok tt, f s).
Definition lift_option {S A} (e : exn) (o : option A) : M S A :=
  match o with Some a => ret a | None => raise e end.
Definition lift_result {S A} (r : result A) : M S A :=
  match r with Ok a => ret a | Raise e => raise e end.

(** Run a computation on a component of the state. *)
Definition zoom {S T A} (proj : S -> T) (upd : T -> S -> S) (m : M T A) : M S A :=
  fun s => let '(r, t') := m (proj s) in (r, upd t' s).

Declare Scope py_scope.
Delimit Scope py_scope with py.
Notation "x <- m ;; k" := (bind m (fun x => k))
  (at level 100, m at next level, right associativity) : py_scope.
Notation "m ;; k" := (bind m (fun _ => k))
  (at level 100, right associativity) : py_scope.
Local Open Scope py_scope.

(** [for x in xs: body x]. *)
Fixpoint for_ {S A} (xs : list A) (body : A -> M S unit) : M S unit :=
  match xs with
  | [] => ret tt
  | x :: rest => (body x ;; for_ rest body)
  end.

(** [range(n)]. *)
Definition range (n : Z) : list Z := seqZ 0 n.

(** ** Configuration dataclasses *)

Module SquareConfig.

Record t : Type := {
  light_color : RGB;
  dark_color : RGB;
  light_highlight_color : RGB;
  dark_highlight_color : RGB
}.

Definition default : t :=
  {| light_color := (240, 217, 181);
     dark_color := (181, 136, 99);
     light_highlight_color := (205, 210, 106);
     dark_highlight_color := (170, 162, 58) |}.

(** The [color] and [highlight_color] properties: 2-tuples, light first. *)
Definition color (c : t) : list RGB := [light_color c; dark_color c].
Definition highlight_color (c : t) : list RGB :=
  [light_highlight_color c; dark_highlight_color c].

End SquareConfig.

Module TextConfig.

Record t : Type := {
  enabled : bool;
  light_color : RGB;
  dark_color : RGB;
  font_size : Z;
  padding : Z
}.

Definition default : t :=
  {| enabled := true;
     light_color := (240, 217, 181);
     dark_color := (148, 111, 81);
     font_size := 24;
     padding := 8 |}.

(** The [color] property. *)
Definition color (c : t) : list RGB := [light_color c; dark_color c].

End TextConfig.

Record Config : Type := {
  inkscape_location : string;
  piece_theme : string;
  square : SquareConfig.t;
  text : TextConfig.t
}.

Definition default_Config : Config :=
  {| inkscape_location := "inkscape";
     piece_theme := "cburnett";
     square := SquareConfig.default;
     text := TextConfig.default |}.

(** ** File-system and process primitives *)

(** [path.exists()]. *)
Definition path_exists (p : Path) : M World bool :=
  modify (log (EvStat p)) ;;
  w <- get ;;
  ret (match fs w !! p with Some _ => true | None => false end).

(** [path.is_dir()]. *)
Definition path_is_dir (p : Path) : M World bool :=
  modify (log (EvStat p)) ;;
  w <- get ;;
  ret (match fs w !! p with Some Dir => true | _ => false end).

(** [path.name]: the last component. *)
Definition path_name (p : Path) : string := default "" (last p).

Definition is_child_of (d p : Path) : bool :=
  match p with
  | [] => false
  | _ => bool_decide (removelast p = d)
  end.

(** [list(path.iterdir())]. *)
Definition iterdir (d : Path) : M World (list Path) :=
  modify (log (EvList d)) ;;
  w <- get ;;
  match fs w !! d with
  | Some Dir => ret (List.filter (is_child_of d) (map fst (map_to_list (fs w))))
  | Some (File _) => raise NotADirectoryError
  | None => raise FileNotFoundError
  end.

(** [Image.open(fp, formats=["png"])] on an open stream. *)
Definition Image_open_stream {S} (c : Content) : M S Image :=
  match c with
  | Png img => ret img
  | Garbage => raise UnidentifiedImageError
  end.

(** [Image.open(path, formats=["png"])]. *)
Definition Image_open (p : Path) : M World Image :=
  modify (log (EvOpen p)) ;;
  w <- get ;;
  match fs w !! p with
  | Some (File c) => Image_open_stream c
  | Some Dir => raise IsADirectoryError
  | None => raise FileNotFoundError
  end.

(** [Popen(args, stdout=PIPE)] followed by [wait()]: the model runs the
    child to completion at once. *)
Definition Popen (args : list Arg) : M World Proc :=
  w <- get ;;
  modify (log (EvSpawn args)) ;;
  lift_option FileNotFoundError (os_exec w (trace w) args).

(** [for x in xs] collecting the elements that pass a test. *)
Fixpoint filterM {S A} (test : A -> M S bool) (xs : list A) : M S (list A) :=
  match xs with
  | [] => ret []
  | x :: rest =>
      b <- test x ;;
      keep <- filterM test rest ;;
      ret (if b then x :: keep else keep)
  end.

(** ** class PieceImage *)

Module PieceImage.

Record t : Type := {
  size : Z;
  config : Config;
  cache : gmap string Image
}.

Definition PIECE_LOCATION (w : World) : Path :=
  path_join (path_join (module_dir w) "assets") "pieces".
Definition CACHE_LOCATION (w : World) : Path :=
  path_join (path_join (module_dir w) "assets") "cache".

(** Methods run on the world and on [self]. *)
Definition St : Type := (World * t)%type.

Definition in_world {A} (m : M World A) : M St A :=
  zoom fst (fun w s => (w, snd s)) m.
Definition self : M St t := s <- get ;; ret (snd s).
Definition world : M St World := s <- get ;; ret (fst s).
Definition set_cache (key : string) (img : Image) : M St unit :=
  modify (fun s : St =>
    (fst s, {| size := size (snd s); config := config (snd s);
               cache := <[key := img]> (cache (snd s)) |})).

(** [list_themes] (a classmethod). *)
Definition list_themes : M World (list string) :=
  w <- get ;;
  entries <- iterdir (PIECE_LOCATION w) ;;
  dirs <- filterM path_is_dir entries ;;
  ret (map path_name dirs).

Definition theme_error (theme : string) : exn :=
  RuntimeError ("Piece theme " ++ String "034"%char
                  (theme ++ String "034"%char " does not exist.")).

(** [__init__]. *)
Definition init (size : Z) (config : Config) : M World t :=
  let self := {| size := size; config := config; cache := ∅ |} in
  themes <- list_themes ;;
  if bool_decide (piece_theme config ∈ themes) then ret self
  else raise (theme_error (piece_theme config)).

Definition piece_to_filename (piece : Piece) (extension : string) : string :=
  let psym := symbol piece in
  if py_islower psym then "b" ++ py_upper psym ++ extension
  else "w" ++ psym ++ extension.

Definition cache_path (w : World) (s : t) (piece : Piece) : Path :=
  path_join (path_join (path_join (CACHE_LOCATION w) (piece_theme (config s)))
                       (py_str (size s)))
            (piece_to_filename piece ".png").

Definition svg_path (w : World) (s : t) (piece : Piece) : Path :=
  path_join (path_join (PIECE_LOCATION w) (piece_theme (config s)))
            (piece_to_filename piece ".svg").

(** [get_piece_from_cache]; [None] is Python's [None]. *)
Definition get_piece_from_cache (piece : Piece) : M St (option Image) :=
  s <- self ;;
  w <- world ;;
  let psym := symbol piece in
  match cache s !! psym with
  | Some img => ret (Some img)
  | None =>
      let filepath := cache_path w s piece in
      found <- in_world (path_exists filepath) ;;
      if found then
        img <- in_world (Image_open filepath) ;;
        ret (Some img)
      else ret None
  end.

Definition inkscape_args (w : World) (s : t) (piece : Piece) : list Arg :=
  [AStr (inkscape_location (config s)); APath (svg_path w s piece);
   AStr "-w"; AStr (py_str (size s));
   AStr "--export-type"; AStr "png"; AStr "-o"; AStr "-"].

(** [render].  A Pillow image is always truthy, so [if cached_image:]
    asks whether [get_piece_from_cache] returned an image. *)
Definition render (piece : Piece) : M St Image :=
  cached_image <- get_piece_from_cache piece ;;
  match cached_image with
  | Some img => ret img
  | None =>
      s <- self ;;
      w <- world ;;
      inkscape_proc <- in_world (Popen (inkscape_args w s piece)) ;;
      if negb (rcode inkscape_proc =? 0) then
        raise (RuntimeError "inkscape app error")
      else
        match stdout inkscape_proc with
        | Some out =>
            piece_image <- Image_open_stream out ;;
            set_cache (symbol piece) piece_image ;;
            ret piece_image
        | None => raise (RuntimeError "inkscape file error")
        end
  end.

End PieceImage.

(** ** class FenToImage *)

Module FenToImage.

Record t : Type := {
  board : Board;
  square_size : Z;
  config : Config;
  text_config : TextConfig.t;
  square_config : SquareConfig.t;
  piece_drawer : PieceImage.t;
  font : Font;
  image : option Canvas
}.

Definition St : Type := (World * t)%type.

Definition set_image (c : Canvas) (s : t) : t :=
  {| board := board s; square_size := square_size s; config := config s;
     text_config := text_config s; square_config := square_config s;
     piece_drawer := piece_drawer s; font := font s; image := Some c |}.

Definition set_piece_drawer (d : PieceImage.t) (s : t) : t :=
  {| board := board s; square_size := square_size s; config := config s;
     text_config := text_config s; square_config := square_config s;
     piece_drawer := d; font := font s; image := image s |}.

Definition self : M St t := s <- get ;; ret (snd s).

(** [self.draw] and [self.image]: the canvas set by [_init_image]. *)
Definition the_canvas : M St Canvas :=
  s <- self ;;
  lift_option AttributeError (image s).

(** A drawing call on that canvas. *)
Definition draw_on (c : Canvas) (op : DrawOp) : M St unit :=
  modify (fun st : St => (fst st, set_image (push op c) (snd st))).

(** A call on [self.piece_drawer]. *)
Definition with_piece_drawer {A} (m : M PieceImage.St A) : M St A :=
  zoom (fun st : St => (fst st, piece_drawer (snd st)))
       (fun ps st => (fst ps, set_piece_drawer (snd ps) (snd st))) m.

(** [__init__].  [Board_of_fen] stands for [chess.Board(fen)] and
    [truetype] for [ImageFont.truetype]: both belong to other
    libraries. *)
Definition init (Board_of_fen : string -> result Board)
    (truetype : Path -> Z -> M World Font)
    (fen : string) (config : Config) (square_size : Z) : M World t :=
  board <- lift_result (Board_of_fen fen) ;;
  piece_drawer <- PieceImage.init square_size config ;;
  w <- get ;;
  font <- truetype (path_join (path_join (module_dir w) "assets") "NotoSans-Bold.ttf")
                   (TextConfig.font_size (text config)) ;;
  ret {| board := board; square_size := square_size; config := config;
         text_config := text config; square_config := square config;
         piece_drawer := piece_drawer; font := font; image := None |}.

Definition _init_image : M St unit :=
  s <- self ;;
  let size := square_size s * 8 in
  c <- lift_result (Image_new size size) ;;
  modify (fun st : St => (fst st, set_image c (snd st))).

Definition _get_square_at {S} (x y : Z) : M S Z :=
  lift_option IndexError (py_getitem SQUARES (x + (7 - y) * 8)).

Definition _render_square_background (x y : Z) (highlighted_squares : list Z)
  : M St unit :=
  s <- self ;;
  let rectx := x * square_size s in
  let recty := y * square_size s in
  let colors := SquareConfig.color (square_config s) in
  let highlight_colors := SquareConfig.highlight_color (square_config s) in
  fill_color <- lift_option IndexError (py_getitem colors ((x + y) mod 2)) ;;
  sq <- _get_square_at x y ;;
  fill_color <-
    (if bool_decide (sq ∈ highlighted_squares)
     then lift_option IndexError (py_getitem highlight_colors ((x + y) mod 2))
     else ret fill_color) ;;
  c <- the_canvas ;;
  draw_on c (Rectangle rectx recty (rectx + square_size s) (recty + square_size s)
                       fill_color).

Definition htext : string := "abcdefgh".
Definition vtext : string := "87654321".

Definition _render_square_location (x y : Z) : M St unit :=
  s <- self ;;
  let rectx := x * square_size s in
  let recty := y * square_size s in
  let text_colors := TextConfig.color (text_config s) in
  let text_padding := TextConfig.padding (text_config s) in
  (if y =? 7 then
     c <- the_canvas ;;
     label <- lift_option IndexError (py_str_getitem htext x) ;;
     fill <- lift_option IndexError (py_getitem text_colors (x mod 2)) ;;
     draw_on c (Text (rectx + text_padding) (recty + square_size s - text_padding)
                     label fill anchor_ls (font s))
   else ret tt) ;;
  (if x =? 7 then
     c <- the_canvas ;;
     label <- lift_option IndexError (py_str_getitem vtext y) ;;
     fill <- lift_option IndexError (py_getitem text_colors (y mod 2)) ;;
     draw_on c (Text (rectx + square_size s - text_padding) (recty + text_padding)
                     label fill anchor_rt (font s))
   else ret tt).

Definition _render_piece (x y : Z) : M St unit :=
  s <- self ;;
  let rectx := x * square_size s in
  let recty := y * square_size s in
  square <- _get_square_at x y ;;
  match board s square with
  | Some piece =>
      piece_image <- with_piece_drawer (PieceImage.render piece) ;;
      c <- the_canvas ;;
      draw_on c (Paste piece_image rectx recty piece_image)
  | None => ret tt
  end.

(** The body of the double loop of [render]. *)
Definition render_cell (highlighted_squares : list Z) (x y : Z) : M St unit :=
  _render_square_background x y highlighted_squares ;;
  s <- self ;;
  (if TextConfig.enabled (text_config s) then _render_square_location x y else ret tt) ;;
  _render_piece x y.

(** [render], called with the highlighted squares as its arguments. *)
Definition render (highlighted_squares : list Z) : M St Canvas :=
  _init_image ;;
  for_ (range 8) (fun x =>
    for_ (range 8) (fun y => render_cell highlighted_squares x y)) ;;
  s <- self ;;
  lift_option AttributeError (image s).

End FenToImage.

(** ** Vocabulary for the glyph provider's lookup chain *)

(** The world after the disk-cache probe, and after the rasterizer was
    started. *)
Definition after_lookup (w : World) (s : PieceImage.t) (piece : Piece) : World :=
  log (EvStat (PieceImage.cache_path w s piece)) w.

Definition after_spawn (w : World) (s : PieceImage.t) (piece : Piece) : World :=
  log (EvSpawn (PieceImage.inkscape_args w s piece)) (after_lookup w s piece).

Definition with_cached (s : PieceImage.t) (key : string) (img : Image) : PieceImage.t :=
  {| PieceImage.size := PieceImage.size s; PieceImage.config := PieceImage.config s;
     PieceImage.cache := <[key := img]> (PieceImage.cache s) |}.

(** What the rasterizer does when it is started on a full miss. *)
Definition rasterizer_outcome (w : World) (s : PieceImage.t) (piece : Piece)
  : option Proc :=
  os_exec w (trace (after_lookup w s piece)) (PieceImage.inkscape_args w s piece).

(** The three ways a call can go, by the state of the two caches. *)
Inductive lookup_case (w : World) (s : PieceImage.t) (piece : Piece) : Type :=
  | case_memory img :
      PieceImage.cache s !! symbol piece = Some img -> lookup_case w s piece
  | case_disk node :
      PieceImage.cache s !! symbol piece = None ->
      fs w !! PieceImage.cache_path w s piece = Some node -> lookup_case w s piece
  | case_miss :
      PieceImage.cache s !! symbol piece = None ->
      fs w !! PieceImage.cache_path w s piece = None -> lookup_case w s piece.

(** ** Test harness and sample objects *)

(** [n] successive calls of [PieceImage.render] on the same provider. *)
Fixpoint render_times (piece : Piece) (n : nat) (st : PieceImage.St)
  : list (result Image) * PieceImage.St :=
  match n with
  | O => ([], st)
  | S k =>
      let '(r, st1) := PieceImage.render piece st in
      let '(rs, st2) := render_times piece k st1 in
      (r :: rs, st2)
  end.

Definition ex_glyph : Image :=
  {| iw := 2; ih := 2; ipix := fun _ _ => (10, 20, 30, 255) |}.

Definition ex_fs : gmap Path Node :=
  <[ ["pkg"; "assets"; "pieces"] := Dir ]>
  (<[ ["pkg"; "assets"; "pieces"; "cburnett"] := Dir ]>
  (<[ ["pkg"; "assets"; "pieces"; "README"] := File Garbage ]>
  (<[ ["pkg"; "assets"; "cache"; "cburnett"; "4"; "bQ.png"] := File (Png ex_glyph) ]>
   ∅))).

Definition ex_proc_ok : Proc := {| rcode := 0; stdout := Some (Png ex_glyph) |}.
Definition ex_proc_fail : Proc := {| rcode := 1; stdout := Some Garbage |}.
Definition ex_proc_closed : Proc := {| rcode := 0; stdout := None |}.

Definition ex_world_with (p : Proc) : World :=
  {| module_dir := ["pkg"]; fs := ex_fs;
     os_exec := fun _ _ => Some p; trace := [] |}.
Definition ex_world : World := ex_world_with ex_proc_ok.

Definition white_king : Piece := {| piece_type := KING; color := true |}.
Definition black_king : Piece := {| piece_type := KING; color := false |}.
Definition black_queen : Piece := {| piece_type := QUEEN; color := false |}.

Definition ex_drawer : PieceImage.t :=
  {| PieceImage.size := 4; PieceImage.config := default_Config;
     PieceImage.cache := ∅ |}.
Definition ex_drawer_warm : PieceImage.t :=
  {| PieceImage.size := 4; PieceImage.config := default_Config;
     PieceImage.cache := {[ "K" := ex_glyph ]} |}.

(** A provider that can serve [piece] without the rasterizer: the image is
    in the memory cache, or else in the disk cache. *)
Definition warm (w : World) (s : PieceImage.t) (piece : Piece) (img : Image) : Prop :=
  PieceImage.cache s !! symbol piece = Some img \/
  (PieceImage.cache s !! symbol piece = None /\
   fs w !! PieceImage.cache_path w s piece = Some (File (Png img))).

(** Both tiers miss. *)
Definition cold (w : World) (s : PieceImage.t) (piece : Piece) : Prop :=
  PieceImage.cache s !! symbol piece = None /\
  fs w !! PieceImage.cache_path w s piece = None.

(** [node] is a directory in [m]. *)
Definition is_dir_in (m : gmap Path Node) (p : Path) : bool :=
  match m !! p with Some Dir => true | _ => false end.

(** Two worlds that differ in their traces only. *)
Definition same_world (w w' : World) : Prop :=
  fs w' = fs w /\ module_dir w' = module_dir w /\ os_exec w' = os_exec w /\
  spawns w' = spawns w.

Definition ex_bad_Config : Config :=
  {| inkscape_location := "inkscape"; piece_theme := "merida";
     square := SquareConfig.default; text := TextConfig.default |}.

(** ** Vocabulary for the board renderer *)

(** The linear index of the square shown at grid cell [(x, y)]. *)
Definition cell_square (x y : Z) : Z := x + (7 - y) * 8.

(** [t[i]] for an index known to be in range. *)
Definition pick (t : list RGB) (i : Z) : RGB := default (0, 0, 0) (py_getitem t i).

Definition char_at (s : string) (i : Z) : string := default "" (py_str_getitem s i).

Definition on_board (x y : Z) : Prop := 0 <= x < 8 /\ 0 <= y < 8.

(** The background rectangle of a cell. *)
Definition background_op (s : FenToImage.t) (hl : list Z) (x y : Z) : DrawOp :=
  let size := FenToImage.square_size s in
  let sc := FenToImage.square_config s in
  Rectangle (x * size) (y * size) (x * size + size) (y * size + size)
    (if bool_decide (cell_square x y ∈ hl)
     then pick (SquareConfig.highlight_color sc) ((x + y) mod 2)
     else pick (SquareConfig.color sc) ((x + y) mod 2)).

(** The file letter of a bottom-row cell and the rank digit of a
    right-column cell. *)
Definition file_label_op (s : FenToImage.t) (x y : Z) : DrawOp :=
  let size := FenToImage.square_size s in
  let tc := FenToImage.text_config s in
  Text (x * size + TextConfig.padding tc) (y * size + size - TextConfig.padding tc)
       (char_at FenToImage.htext x) (pick (TextConfig.color tc) (x mod 2))
       anchor_ls (FenToImage.font s).

Definition rank_label_op (s : FenToImage.t) (x y : Z) : DrawOp :=
  let size := FenToImage.square_size s in
  let tc := FenToImage.text_config s in
  Text (x * size + size - TextConfig.padding tc) (y * size + TextConfig.padding tc)
       (char_at FenToImage.vtext y) (pick (TextConfig.color tc) (y mod 2))
       anchor_rt (FenToImage.font s).

(** The labels of a cell, latest first. *)
Definition label_ops (s : FenToImage.t) (x y : Z) : list DrawOp :=
  ((if x =? 7 then [rank_label_op s x y] else []) ++
   (if y =? 7 then [file_label_op s x y] else []))%list.

Definition push_all (l : list DrawOp) (c : Canvas) : Canvas :=
  {| cw := cw c; ch := ch c; ops := (l ++ ops c)%list |}.

(** The canvas of a cell once its background and labels are drawn. *)
Definition decorated (s : FenToImage.t) (hl : list Z) (x y : Z) (c : Canvas) : Canvas :=
  push_all (if TextConfig.enabled (FenToImage.text_config s) then label_ops s x y else [])
           (push (background_op s hl x y) c).

Definition glyph_op (s : FenToImage.t) (x y : Z) (img : Image) : DrawOp :=
  Paste img (x * FenToImage.square_size s) (y * FenToImage.square_size s) img.

(** A renderer whose provider is [d] and whose current canvas is [c]. *)
Definition with_state (s : FenToImage.t) (d : PieceImage.t) (c : Canvas) : FenToImage.t :=
  {| FenToImage.board := FenToImage.board s;
     FenToImage.square_size := FenToImage.square_size s;
     FenToImage.config := FenToImage.config s;
     FenToImage.text_config := FenToImage.text_config s;
     FenToImage.square_config := FenToImage.square_config s;
     FenToImage.piece_drawer := d;
     FenToImage.font := FenToImage.font s;
     FenToImage.image := Some c |}.

(** The part of the state a rendering pass changes: the world, the glyph
    provider and the canvas. *)
Definition Core : Type := (World * PieceImage.t * Canvas)%type.

Definition embed (s : FenToImage.t) (k : Core) : FenToImage.St :=
  let '(w, d, c) := k in (w, with_state s d c).

(** What drawing one cell amounts to. *)
Definition cell_core (s : FenToImage.t) (hl : list Z) (cell : Z * Z) (k : Core)
  : result unit * Core :=
  let '(w, d, c) := k in
  let '(x, y) := cell in
  let c1 := decorated s hl x y c in
  match FenToImage.board s (cell_square x y) with
  | None => (Ok tt, (w, d, c1))
  | Some piece =>
      match PieceImage.render piece (w, d) with
      | (Ok img, (w', d')) => (Ok tt, (w', d', push (glyph_op s x y img) c1))
      | (Raise e, (w', d')) => (Raise e, (w', d', c1))
      end
  end.

(** Drawing a list of cells in order, stopping at the first exception. *)
Fixpoint cells_core (s : FenToImage.t) (hl : list Z) (cells : list (Z * Z)) (k : Core)
  : result unit * Core :=
  match cells with
  | [] => (Ok tt, k)
  | cell :: rest =>
      match cell_core s hl cell k with
      | (Ok _, k') => cells_core s hl rest k'
      | (Raise e, k') => (Raise e, k')
      end
  end.

(** The cells in the order [render] visits them: column by column. *)
Definition grid : list (Z * Z) :=
  flat_map (fun x => map (pair x) (range 8)) (range 8).

Definition blank (size : Z) : Canvas := {| cw := size; ch := size; ops := [] |}.

(** [chess.square(file, rank)] and the two corner squares of file a. *)
Definition chess_square (file rank : Z) : Z := rank * 8 + file.
Definition A1 : Z := 0.
Definition A8 : Z := 56.

(** An environment in which glyph acquisition cannot fail for provider
    [d]: whatever sits at a disk-cache path is a PNG file, and the
    rasterizer always exits zero with a PNG on its standard output. *)
Definition healthy (w : World) (d : PieceImage.t) : Prop :=
  (forall piece node,
     fs w !! PieceImage.cache_path w d piece = Some node ->
     exists img, node = File (Png img)) /\
  (forall tr args, exists img,
     os_exec w tr args = Some {| rcode := 0; stdout := Some (Png img) |}).

(** The fill colours of the rectangles drawn on a canvas. *)
Definition rectangle_fills (c : Canvas) : list RGB :=
  omap (fun op => match op with Rectangle _ _ _ _ fill => Some fill | _ => None end)
       (ops c).

(** The position k7/8/8/8/8/8/8/K7 and the empty position. *)
Definition ex_board : Board :=
  fun sq => if sq =? A8 then Some black_king
            else if sq =? A1 then Some white_king else None.
Definition empty_board : Board := fun _ => None.

Definition ex_font : Font :=
  fun _ _ dx dy =>
    if (0 <=? dx) && (dx <? 2) && (-2 <? dy) && (dy <=? 0) then Some 255 else None.

Definition ex_blend (m : Z) (old new : RGB) : RGB := if m =? 0 then old else new.

Definition ex_self_with (b : Board) : FenToImage.t :=
  {| FenToImage.board := b; FenToImage.square_size := 4;
     FenToImage.config := default_Config;
     FenToImage.text_config := TextConfig.default;
     FenToImage.square_config := SquareConfig.default;
     FenToImage.piece_drawer := ex_drawer;
     FenToImage.font := ex_font;
     FenToImage.image := None |}.
Definition ex_self : FenToImage.t := ex_self_with ex_board.

(** The colour of a square of the given parity (0 light, 1 dark), normal or
    highlighted. *)
Definition parity_fill (sc : SquareConfig.t) (highlighted : bool) (parity : Z) : RGB :=
  if highlighted
  then (if parity =? 0 then SquareConfig.light_highlight_color sc else SquareConfig.dark_highlight_color sc)
  else (if parity =? 0 then SquareConfig.light_color sc else SquareConfig.dark_color sc).

(** The colour of a label of the given index (0 light, 1 dark). *)
Definition label_fill (tc : TextConfig.t) (index : Z) : RGB :=
  if index =? 0 then TextConfig.light_color tc else TextConfig.dark_color tc.

Definition is_fill_color (sc : SquareConfig.t) (f : RGB) : Prop :=
  f = SquareConfig.light_color sc \/ f = SquareConfig.dark_color sc.

(** The pixels of the cell of square [sq]: the [size] by [size] region at
    the square's pixel offset. *)
Definition cell_box (size sq px py : Z) : Prop :=
  0 <= sq < 64 /\
  square_file sq * size <= px < square_file sq * size + size /\
  (7 - square_rank sq) * size <= py < (7 - square_rank sq) * size + size.

(** Two canvases of one size whose pixels agree outside the region [D]. *)
Definition agree_outside (blend : Z -> RGB -> RGB -> RGB) (D : Z -> Z -> Prop)
    (c0 c1 : Canvas) : Prop :=
  cw c0 = cw c1 /\ ch c0 = ch c1 /\
  forall px py, ~ D px py ->
    pixel_of_ops blend (ops c0) px py = pixel_of_ops blend (ops c1) px py.

(** The rectangle painted for a cell, both corners included. *)
Definition cell_rect (size : Z) (cell : Z * Z) (px py : Z) : bool :=
  let '(x, y) := cell in
  in_rect (x * size) (y * size) (x * size + size) (y * size + size) px py.

(** How the region where a plain rendering and a rendering highlighting
    [sq] may differ evolves when one more cell is drawn: the cell of [sq]
    adds its rectangle, every other cell repaints its own. *)
Definition region_step (size sq : Z) (cell : Z * Z) (D : Z -> Z -> Prop)
  : Z -> Z -> Prop :=
  fun px py =>
    if bool_decide (cell_square (fst cell) (snd cell) = sq)
    then D px py \/ cell_rect size cell px py = true
    else D px py /\ cell_rect size cell px py = false.

Fixpoint region_after (size sq : Z) (cells : list (Z * Z)) (D : Z -> Z -> Prop)
  : Z -> Z -> Prop :=
  match cells with
  | [] => D
  | cell :: rest => region_after size sq rest (region_step size sq cell D)
  end.

Definition nowhere : Z -> Z -> Prop := fun _ _ => False.

(** ** Further vocabulary *)

(** Successive calls of [PieceImage.render], one per piece of the list, on
    the same provider, whatever each call returns. *)
Fixpoint render_each (pieces : list Piece) (st : PieceImage.St) : PieceImage.St :=
  match pieces with
  | [] => st
  | piece :: rest => render_each rest (snd (PieceImage.render piece st))
  end.

(** The piece identities the memory cache does not hold. *)
Definition is_missing (d : PieceImage.t) (piece : Piece) : bool :=
  match PieceImage.cache d !! symbol piece with
  | Some _ => false
  | None => true
  end.
Definition missing (d : PieceImage.t) : nat :=
  length (List.filter (is_missing d) all_pieces).

(** A rasterizer that always exits with a non-zero status. *)
Definition rasterizer_broken (w : World) : Prop :=
  forall tr args, exists proc, os_exec w tr args = Some proc /\ rcode proc <> 0.

Definition ex_rootless_world : World :=
  {| module_dir := ["pkg"]; fs := ∅;
     os_exec := fun _ _ => Some ex_proc_ok; trace := [] |}.

(** The exception [Image.open] raises on something that is not a PNG
    file. *)
Definition open_error (node : Node) : exn :=
  match node with
  | Dir => IsADirectoryError
  | File _ => UnidentifiedImageError
  end.

(** The labels drawn on a canvas, first drawn first: text and anchor. *)
Definition label_of (op : DrawOp) : option (string * Anchor) :=
  match op with Text _ _ text _ anchor _ => Some (text, anchor) | _ => None end.
Definition labels_drawn (c : Canvas) : list (string * Anchor) :=
  rev (omap label_of (ops c)).

(** The labels of one cell in drawing order: the file letter, then the rank
    digit. *)
Definition cell_labels (cell : Z * Z) : list (string * Anchor) :=
  ((if snd cell =? 7 then [(char_at FenToImage.htext (fst cell), anchor_ls)] else []) ++
   (if fst cell =? 7 then [(char_at FenToImage.vtext (snd cell), anchor_rt)] else []))%list.

(** The pixel offsets at which glyphs were pasted, first pasted first. *)
Definition paste_of (op : DrawOp) : option (Z * Z) :=
  match op with Paste _ x y _ => Some (x, y) | _ => None end.
Definition pastes_drawn (c : Canvas) : list (Z * Z) :=
  rev (omap paste_of (ops c)).

Definition occupied (s : FenToImage.t) (cell : Z * Z) : bool :=
  match FenToImage.board s (cell_square (fst cell) (snd cell)) with
  | Some _ => true
  | None => false
  end.

Definition cell_offset (s : FenToImage.t) (cell : Z * Z) : Z * Z :=
  (fst cell * FenToImage.square_size s, snd cell * FenToImage.square_size s).

Definition ex_self_sized (size : Z) (labels : bool) (b : Board) : FenToImage.t :=
  {| FenToImage.board := b; FenToImage.square_size := size;
     FenToImage.config := default_Config;
     FenToImage.text_config :=
       {| TextConfig.enabled := labels;
          TextConfig.light_color := (240, 217, 181);
          TextConfig.dark_color := (148, 111, 81);
          TextConfig.font_size := 24;
          TextConfig.padding := 8 |};
     FenToImage.square_config := SquareConfig.default;
     FenToImage.piece_drawer := ex_drawer;
     FenToImage.font := ex_font;
     FenToImage.image := None |}.

(** The canvas after the backgrounds of a list of cells were drawn. *)
Definition paint_cells (s : FenToImage.t) (hl : list Z) (cells : list (Z * Z))
    (c : Canvas) : Canvas :=
  fold_left (fun acc cell => push (background_op s hl (fst cell) (snd cell)) acc) cells c.

(** [cell] is visited after [(x, y)]: a later column, or the same column
    further down. *)
Definition later_than (x y : Z) (cell : Z * Z) : bool :=
  (x <? fst cell) || ((fst cell =? x) && (y <? snd cell)).

(** Stand-ins for the two library calls of [FenToImage.__init__]: a parser
    that accepts one position, and a font loader that needs the font
    file. *)
Definition ex_Board_of_fen (fen : string) : result Board :=
  if String.eqb fen "k7/8/8/8/8/8/8/K7 w - - 0 1" then Ok ex_board
  else Raise ValueError.
Definition ex_truetype (p : Path) (size : Z) : M World Font :=
  modify (log (EvOpen p)) ;;
  w <- get ;;
  match fs w !! p with
  | Some (File _) => ret ex_font
  | _ => raise FileNotFoundError
  end.
Definition ex_font_world : World :=
  {| module_dir := ["pkg"];
     fs := <[ ["pkg"; "assets"; "NotoSans-Bold.ttf"] := File Garbage ]> ex_fs;
     os_exec := fun _ _ => Some ex_proc_ok; trace := [] |}.

(** [sq] is highlighted in exactly one of two argument lists. *)
Definition differs (hl1 hl2 : list Z) (sq : Z) : bool :=
  xorb (bool_decide (sq ∈ hl1)) (bool_decide (sq ∈ hl2)).

(** How the region where two renderings of one position may differ evolves
    when one more cell is drawn: a cell whose square is highlighted in one
    rendering only adds its rectangle, every other cell repaints its own. *)
Definition region_step2 (size : Z) (diff : Z -> bool) (cell : Z * Z)
    (D : Z -> Z -> Prop) : Z -> Z -> Prop :=
  fun px py =>
    if diff (cell_square (fst cell) (snd cell))
    then D px py \/ cell_rect size cell px py = true
    else D px py /\ cell_rect size cell px py = false.

Fixpoint region_after2 (size : Z) (diff : Z -> bool) (cells : list (Z * Z))
    (D : Z -> Z -> Prop) : Z -> Z -> Prop :=
  match cells with
  | [] => D
  | cell :: rest => region_after2 size diff rest (region_step2 size diff cell D)
  end.

(** ** Strings and pieces *)

Lemma all_pieces_complete (p : Piece) : p ∈ all_pieces.
Proof. destruct p as [[] []]; vm_compute; set_solver. Qed.

Lemma symbol_inj (p q : Piece) : symbol p = symbol q -> p = q.
Proof. destruct p as [[] []], q as [[] []]; vm_compute; congruence. Qed.

Lemma symbol_length (p : Piece) : String.length (symbol p) = 1%nat.
Proof. destruct p as [[] []]; reflexivity. Qed.

Lemma filename_inj (p q : Piece) (ext : string) :
  PieceImage.piece_to_filename p ext = PieceImage.piece_to_filename q ext -> p = q.
Proof. destruct p as [[] []], q as [[] []]; vm_compute; congruence. Qed.

(** ** Glyph provider: the lookup chain of [render] *)

Ltac run_monad :=
  cbv [PieceImage.render PieceImage.get_piece_from_cache PieceImage.self
       PieceImage.world PieceImage.in_world PieceImage.set_cache
       path_exists Image_open Image_open_stream Popen
       bind ret raise get modify zoom lift_option lift_result fst snd].

Lemma render_memory_hit piece w s img :
  PieceImage.cache s !! symbol piece = Some img ->
  PieceImage.render piece (w, s) = (Ok img, (w, s)).
Proof. intros H. run_monad. rewrite H. reflexivity. Qed.

Lemma render_disk_hit piece w s img :
  PieceImage.cache s !! symbol piece = None ->
  fs w !! PieceImage.cache_path w s piece = Some (File (Png img)) ->
  PieceImage.render piece (w, s) =
    (Ok img, (log (EvOpen (PieceImage.cache_path w s piece)) (after_lookup w s piece), s)).
Proof.
  intros H1 H2. run_monad. rewrite H1. simpl. rewrite H2. simpl.
  rewrite H2. reflexivity.
Qed.

Lemma render_full_miss piece w s :
  PieceImage.cache s !! symbol piece = None ->
  fs w !! PieceImage.cache_path w s piece = None ->
  PieceImage.render piece (w, s) =
    match rasterizer_outcome w s piece with
    | None => (Raise FileNotFoundError, (after_spawn w s piece, s))
    | Some proc =>
        if negb (rcode proc =? 0)
        then (Raise (RuntimeError "inkscape app error"), (after_spawn w s piece, s))
        else match stdout proc with
             | None => (Raise (RuntimeError "inkscape file error"),
                        (after_spawn w s piece, s))
             | Some Garbage => (Raise UnidentifiedImageError, (after_spawn w s piece, s))
             | Some (Png img) =>
                 (Ok img, (after_spawn w s piece, with_cached s (symbol piece) img))
             end
    end.
Proof.
  intros H1 H2. unfold rasterizer_outcome. run_monad. rewrite H1. simpl. rewrite H2. simpl.
  destruct (os_exec w _ _) as [[rc out]|]; simpl; [|reflexivity].
  destruct (rc =? 0); simpl; [|reflexivity].
  destruct out as [[img|]|]; reflexivity.
Qed.

Lemma lookup_cases w s piece : lookup_case w s piece.
Proof.
  destruct (PieceImage.cache s !! symbol piece) as [img|] eqn:E1.
  - exact (case_memory _ _ _ img E1).
  - destruct (fs w !! PieceImage.cache_path w s piece) as [node|] eqn:E2.
    + exact (case_disk _ _ _ node E1 E2).
    + exact (case_miss _ _ _ E1 E2).
Qed.

Lemma render_disk_other piece w s node :
  PieceImage.cache s !! symbol piece = None ->
  fs w !! PieceImage.cache_path w s piece = Some node ->
  (forall img, node <> File (Png img)) ->
  exists e, PieceImage.render piece (w, s) =
    (Raise e, (log (EvOpen (PieceImage.cache_path w s piece)) (after_lookup w s piece), s)).
Proof.
  intros H1 H2 H3. run_monad. rewrite H1. simpl. rewrite H2. simpl. rewrite H2.
  destruct node as [|[img|]]; simpl; eauto.
  exfalso. apply (H3 img). reflexivity.
Qed.

(** [render] never touches the file system contents, changes at most the
    memory-cache entry of its own piece, and starts at most one process. *)
Lemma render_frame piece w s r w' s' :
  PieceImage.render piece (w, s) = (r, (w', s')) ->
  fs w' = fs w /\ module_dir w' = module_dir w /\ os_exec w' = os_exec w /\
  PieceImage.size s' = PieceImage.size s /\
  PieceImage.config s' = PieceImage.config s /\
  (forall key, key <> symbol piece ->
     PieceImage.cache s' !! key = PieceImage.cache s !! key) /\
  (spawns w <= spawns w' <= spawns w + 1)%nat.
Proof.
  intros H.
  destruct (lookup_cases w s piece) as [img E1|node E1 E2|E1 E2].
  - rewrite (render_memory_hit _ _ _ _ E1) in H. inversion H; subst.
    repeat split; auto; lia.
  - destruct node as [|[img|]].
    + destruct (render_disk_other piece w s Dir E1 E2) as [e He]; [congruence|].
      rewrite He in H. inversion H; subst. unfold spawns. simpl. repeat split; auto; lia.
    + rewrite (render_disk_hit _ _ _ _ E1 E2) in H. inversion H; subst.
      unfold spawns. simpl. repeat split; auto; lia.
    + destruct (render_disk_other piece w s (File Garbage) E1 E2) as [e He]; [congruence|].
      rewrite He in H. inversion H; subst. unfold spawns. simpl. repeat split; auto; lia.
  - rewrite (render_full_miss _ _ _ E1 E2) in H.
    destruct (rasterizer_outcome w s piece) as [[rc out]|]; simpl in H.
    + destruct (rc =? 0); simpl in H.
      * destruct out as [[img|]|]; inversion H; subst; unfold spawns; simpl;
          repeat split; auto; try lia.
        intros key Hk. apply lookup_insert_ne. congruence.
      * inversion H; subst. unfold spawns. simpl. repeat split; auto; lia.
    + inversion H; subst. unfold spawns. simpl. repeat split; auto; lia.
Qed.

(** C2. [PieceImage.render] follows the asymmetric two-tier cache policy:
    (1) a memory-cache hit returns the cached image and leaves the world,
    trace included, and the provider as they were: no disk access, no
    process; (2) otherwise a raster file at the disk-cache path
    theme/size/token is loaded and returned, the memory cache is left as it
    was and no process is started; (3) on a full miss the freshly
    rasterized image is returned and stored in the memory cache under the
    piece's key, and nowhere else; (4) no call ever changes the contents of
    the file system. *)
Theorem C2_cache_policy (piece : Piece) (w : World) (s : PieceImage.t) :
  (forall img,
     PieceImage.cache s !! symbol piece = Some img ->
     PieceImage.render piece (w, s) = (Ok img, (w, s))) /\
  (forall img,
     PieceImage.cache s !! symbol piece = None ->
     fs w !! PieceImage.cache_path w s piece = Some (File (Png img)) ->
     exists w',
       PieceImage.render piece (w, s) = (Ok img, (w', s)) /\
       spawns w' = spawns w /\
       trace w' = EvOpen (PieceImage.cache_path w s piece)
                  :: EvStat (PieceImage.cache_path w s piece) :: trace w) /\
  (forall img,
     PieceImage.cache s !! symbol piece = None ->
     fs w !! PieceImage.cache_path w s piece = None ->
     rasterizer_outcome w s piece = Some {| rcode := 0; stdout := Some (Png img) |} ->
     exists w' s',
       PieceImage.render piece (w, s) = (Ok img, (w', s')) /\
       PieceImage.cache s' = <[symbol piece := img]> (PieceImage.cache s) /\
       PieceImage.size s' = PieceImage.size s /\
       PieceImage.config s' = PieceImage.config s /\
       spawns w' = S (spawns w) /\
       fs w' = fs w) /\
  (forall r w' s',
     PieceImage.render piece (w, s) = (r, (w', s')) -> fs w' = fs w).
Proof.
  repeat split.
  - intros img H. exact (render_memory_hit piece w s img H).
  - intros img H1 H2. eexists. split; [exact (render_disk_hit piece w s img H1 H2)|].
    split; reflexivity.
  - intros img H1 H2 H3. do 2 eexists.
    rewrite (render_full_miss piece w s H1 H2), H3. simpl.
    repeat split; reflexivity.
  - intros r w' s' H. exact (proj1 (render_frame piece w s r w' s' H)).
Qed.

Lemma C2_cache_policy_witness :
  PieceImage.render white_king (ex_world, ex_drawer_warm)
    = (Ok ex_glyph, (ex_world, ex_drawer_warm)) /\
  (exists w',
     PieceImage.render black_queen (ex_world, ex_drawer) = (Ok ex_glyph, (w', ex_drawer)) /\
     spawns w' = spawns ex_world /\
     trace w' = EvOpen (PieceImage.cache_path ex_world ex_drawer black_queen)
                :: EvStat (PieceImage.cache_path ex_world ex_drawer black_queen)
                :: trace ex_world) /\
  (exists w' s',
     PieceImage.render white_king (ex_world, ex_drawer) = (Ok ex_glyph, (w', s')) /\
     PieceImage.cache s' = <[symbol white_king := ex_glyph]> (PieceImage.cache ex_drawer) /\
     PieceImage.size s' = PieceImage.size ex_drawer /\
     PieceImage.config s' = PieceImage.config ex_drawer /\
     spawns w' = S (spawns ex_world) /\
     fs w' = fs ex_world).
Proof.
  split; [|split].
  - apply (proj1 (C2_cache_policy white_king ex_world ex_drawer_warm) ex_glyph).
    reflexivity.
  - apply (proj1 (proj2 (C2_cache_policy black_queen ex_world ex_drawer)) ex_glyph);
      reflexivity.
  - apply (proj1 (proj2 (proj2 (C2_cache_policy white_king ex_world ex_drawer))) ex_glyph);
      reflexivity.
Defined.

(** ** Repeated calls *)

Lemma render_ok_warm piece w s img w' s' :
  PieceImage.render piece (w, s) = (Ok img, (w', s')) -> warm w' s' piece img.
Proof.
  intros H.
  destruct (lookup_cases w s piece) as [img0 E1|node E1 E2|E1 E2].
  - rewrite (render_memory_hit _ _ _ _ E1) in H. inversion H; subst. left. exact E1.
  - destruct node as [|[img0|]].
    + destruct (render_disk_other piece w s Dir E1 E2) as [e He]; [congruence|].
      rewrite He in H. discriminate.
    + rewrite (render_disk_hit _ _ _ _ E1 E2) in H. inversion H; subst.
      right. split; [exact E1|exact E2].
    + destruct (render_disk_other piece w s (File Garbage) E1 E2) as [e He]; [congruence|].
      rewrite He in H. discriminate.
  - rewrite (render_full_miss _ _ _ E1 E2) in H.
    destruct (rasterizer_outcome w s piece) as [[rc out]|]; simpl in H; [|discriminate].
    destruct (rc =? 0); simpl in H; [|discriminate].
    destruct out as [[img0|]|]; inversion H; subst.
    left. simpl. apply lookup_insert_eq.
Qed.

Lemma render_warm piece w s img :
  warm w s piece img ->
  exists w', PieceImage.render piece (w, s) = (Ok img, (w', s)) /\
             spawns w' = spawns w /\ warm w' s piece img.
Proof.
  intros [E1|[E1 E2]].
  - exists w. rewrite (render_memory_hit _ _ _ _ E1). repeat split. left. exact E1.
  - eexists. rewrite (render_disk_hit _ _ _ _ E1 E2). repeat split.
    right. split; [exact E1|exact E2].
Qed.

Lemma render_times_warm piece img n : forall w s,
  warm w s piece img ->
  exists w', render_times piece n (w, s) = (replicate n (Ok img), (w', s)) /\
             spawns w' = spawns w.
Proof.
  induction n as [|n IH]; intros w s Hw.
  - exists w. split; reflexivity.
  - destruct (render_warm piece w s img Hw) as (w1 & Hr & Hs & Hw1).
    destruct (IH w1 s Hw1) as (w2 & Hr2 & Hs2).
    exists w2. simpl. rewrite Hr, Hr2. split; [reflexivity|congruence].
Qed.

Lemma render_spawn_cold piece w s r w' s' :
  PieceImage.render piece (w, s) = (r, (w', s')) ->
  spawns w' <> spawns w -> cold w s piece.
Proof.
  intros H Hne.
  destruct (lookup_cases w s piece) as [img0 E1|node E1 E2|E1 E2].
  - rewrite (render_memory_hit _ _ _ _ E1) in H. inversion H; subst. congruence.
  - exfalso. apply Hne. destruct node as [|[img0|]].
    + destruct (render_disk_other piece w s Dir E1 E2) as [e He]; [congruence|].
      rewrite He in H. inversion H; subst. reflexivity.
    + rewrite (render_disk_hit _ _ _ _ E1 E2) in H. inversion H; subst. reflexivity.
    + destruct (render_disk_other piece w s (File Garbage) E1 E2) as [e He]; [congruence|].
      rewrite He in H. inversion H; subst. reflexivity.
  - split; assumption.
Qed.

(** C5. For every piece identity (the type [Piece] has exactly the 12 of
    [all_pieces]) and a provider of fixed theme and size: once a call of
    [render] has returned an image, every later call on the same provider
    returns that same image and starts no process; the first call starts at
    most one process, and starts one only when both caches are cold. *)
Theorem C5_render_idempotent (piece : Piece) (w : World) (s : PieceImage.t)
    (img : Image) (w1 : World) (s1 : PieceImage.t) :
  PieceImage.render piece (w, s) = (Ok img, (w1, s1)) ->
  piece ∈ all_pieces /\
  (spawns w1 <= spawns w + 1)%nat /\
  (spawns w1 <> spawns w -> cold w s piece) /\
  forall n, exists w2 s2,
    render_times piece n (w1, s1) = (replicate n (Ok img), (w2, s2)) /\
    spawns w2 = spawns w1.
Proof.
  intros H. split; [apply all_pieces_complete|]. split; [|split].
  - pose proof (render_frame piece w s _ w1 s1 H) as HF. lia.
  - exact (render_spawn_cold piece w s _ w1 s1 H).
  - intros n.
    destruct (render_times_warm piece img n w1 s1 (render_ok_warm _ _ _ _ _ _ H))
      as (w2 & Hr & Hs).
    exists w2, s1. split; assumption.
Qed.

Lemma C5_render_idempotent_witness :
  white_king ∈ all_pieces /\
  (spawns (after_spawn ex_world ex_drawer white_king) <= spawns ex_world + 1)%nat /\
  (spawns (after_spawn ex_world ex_drawer white_king) <> spawns ex_world ->
   cold ex_world ex_drawer white_king) /\
  forall n, exists w2 s2,
    render_times white_king n
      (after_spawn ex_world ex_drawer white_king,
       with_cached ex_drawer (symbol white_king) ex_glyph)
    = (replicate n (Ok ex_glyph), (w2, s2)) /\
    spawns w2 = spawns (after_spawn ex_world ex_drawer white_king).
Proof.
  apply (C5_render_idempotent white_king ex_world ex_drawer ex_glyph).
  reflexivity.
Defined.

(** ** Rasterizer failures *)

(** C6. On a full cache miss, a rasterizer process that exits with a
    non-zero status makes [render] raise the rasterization error
    [RuntimeError "inkscape app error"], with the provider (hence its memory
    cache) and the file system (hence the disk cache) left as they were; a
    process that exits zero with no standard-output stream makes it raise
    [RuntimeError "inkscape file error"], again without touching either
    cache. *)
Theorem C6_rasterizer_failure (piece : Piece) (w : World) (s : PieceImage.t)
    (proc : Proc) :
  cold w s piece ->
  rasterizer_outcome w s piece = Some proc ->
  (rcode proc <> 0 ->
   exists w', PieceImage.render piece (w, s)
                = (Raise (RuntimeError "inkscape app error"), (w', s)) /\
              fs w' = fs w) /\
  (rcode proc = 0 -> stdout proc = None ->
   exists w', PieceImage.render piece (w, s)
                = (Raise (RuntimeError "inkscape file error"), (w', s)) /\
              fs w' = fs w).
Proof.
  intros [E1 E2] Hp. rewrite (render_full_miss piece w s E1 E2), Hp. split.
  - intros Hrc. apply Z.eqb_neq in Hrc. rewrite Hrc. simpl.
    eexists. split; reflexivity.
  - intros Hrc Hout. rewrite Hrc, Hout. simpl. eexists. split; reflexivity.
Qed.

Lemma C6_rasterizer_failure_witness :
  (exists w', PieceImage.render white_king (ex_world_with ex_proc_fail, ex_drawer)
                = (Raise (RuntimeError "inkscape app error"), (w', ex_drawer)) /\
              fs w' = fs (ex_world_with ex_proc_fail)) /\
  (exists w', PieceImage.render white_king (ex_world_with ex_proc_closed, ex_drawer)
                = (Raise (RuntimeError "inkscape file error"), (w', ex_drawer)) /\
              fs w' = fs (ex_world_with ex_proc_closed)).
Proof.
  split.
  - apply (proj1 (C6_rasterizer_failure white_king (ex_world_with ex_proc_fail)
                    ex_drawer ex_proc_fail
                    (conj eq_refl eq_refl) eq_refl)).
    simpl. lia.
  - apply (proj2 (C6_rasterizer_failure white_king (ex_world_with ex_proc_closed)
                    ex_drawer ex_proc_closed
                    (conj eq_refl eq_refl) eq_refl));
      reflexivity.
Defined.

(** ** The memory-cache key *)

Lemma render_cache_update piece w s r w' s' :
  PieceImage.render piece (w, s) = (r, (w', s')) ->
  PieceImage.cache s' = PieceImage.cache s \/
  exists img, r = Ok img /\
              PieceImage.cache s' = <[symbol piece := img]> (PieceImage.cache s).
Proof.
  intros H.
  destruct (lookup_cases w s piece) as [img0 E1|node E1 E2|E1 E2].
  - rewrite (render_memory_hit _ _ _ _ E1) in H. inversion H; subst. left; reflexivity.
  - left. destruct node as [|[img0|]].
    + destruct (render_disk_other piece w s Dir E1 E2) as [e He]; [congruence|].
      rewrite He in H. inversion H; subst. reflexivity.
    + rewrite (render_disk_hit _ _ _ _ E1 E2) in H. inversion H; subst. reflexivity.
    + destruct (render_disk_other piece w s (File Garbage) E1 E2) as [e He]; [congruence|].
      rewrite He in H. inversion H; subst. reflexivity.
  - rewrite (render_full_miss _ _ _ E1 E2) in H.
    destruct (rasterizer_outcome w s piece) as [[rc out]|]; simpl in H.
    + destruct (rc =? 0); simpl in H.
      * destruct out as [[img|]|]; inversion H; subst; simpl; eauto.
      * inversion H; subst. left; reflexivity.
    + inversion H; subst. left; reflexivity.
Qed.

(** C10. The in-memory glyph cache is keyed by the raw piece symbol: a
    one-character string, lower case exactly for the dark pieces, distinct
    from the two-character file-name token; [render] writes the cache only
    at that key.  The key is injective on the piece identities, so a light
    and a dark piece of one kind have different keys, a hit at a piece's key
    returns the image held there, and rendering one identity never changes
    the entry of another. *)
Theorem C10_memory_cache_key :
  (forall p, String.length (symbol p) = 1%nat /\
             String.length (PieceImage.piece_to_filename p "") = 2%nat /\
             py_islower (symbol p) = negb (color p)) /\
  (forall p w s r w' s',
      PieceImage.render p (w, s) = (r, (w', s')) ->
      PieceImage.cache s' = PieceImage.cache s \/
      exists img, r = Ok img /\
                  PieceImage.cache s' = <[symbol p := img]> (PieceImage.cache s)) /\
  (forall p q, symbol p = symbol q -> p = q) /\
  (forall pt, symbol {| piece_type := pt; color := true |}
              <> symbol {| piece_type := pt; color := false |}) /\
  (forall p w s img,
      PieceImage.cache s !! symbol p = Some img ->
      PieceImage.render p (w, s) = (Ok img, (w, s))) /\
  (forall p q w s r w' s',
      PieceImage.render q (w, s) = (r, (w', s')) ->
      p <> q ->
      PieceImage.cache s' !! symbol p = PieceImage.cache s !! symbol p).
Proof.
  split; [|split; [|split; [|split; [|split]]]].
  - intros [[] []]; repeat split; reflexivity.
  - exact render_cache_update.
  - exact symbol_inj.
  - intros pt H. apply symbol_inj in H. discriminate.
  - intros p w s img H. exact (render_memory_hit p w s img H).
  - intros p q w s r w' s' H Hne.
    destruct (render_frame q w s r w' s' H) as (_ & _ & _ & _ & _ & Hc & _).
    apply Hc. intros E. apply Hne. exact (symbol_inj _ _ E).
Qed.

Lemma C10_memory_cache_key_witness :
  (white_king = white_king) /\
  PieceImage.render white_king (ex_world, ex_drawer_warm)
    = (Ok ex_glyph, (ex_world, ex_drawer_warm)) /\
  PieceImage.cache (with_cached ex_drawer_warm (symbol black_king) ex_glyph)
    !! symbol white_king
  = PieceImage.cache ex_drawer_warm !! symbol white_king.
Proof.
  destruct C10_memory_cache_key as (_ & _ & Hinj & _ & Hhit & Hother).
  split; [|split].
  - apply Hinj. reflexivity.
  - apply Hhit. reflexivity.
  - apply (Hother white_king black_king ex_world ex_drawer_warm (Ok ex_glyph)
             (after_spawn ex_world ex_drawer_warm black_king)).
    + reflexivity.
    + discriminate.
Defined.

(** ** Themes and construction *)

Lemma same_world_refl w : same_world w w.
Proof. repeat split. Qed.

Lemma same_world_log_stat p w w' : same_world w w' -> same_world w (log (EvStat p) w').
Proof. intros (H1 & H2 & H3 & H4). repeat split; assumption. Qed.

Lemma filterM_is_dir (xs : list Path) : forall w w0,
  same_world w0 w ->
  exists w', filterM path_is_dir xs w = (Ok (List.filter (is_dir_in (fs w0)) xs), w') /\
             same_world w0 w'.
Proof.
  induction xs as [|x rest IH]; intros w w0 Hw.
  - exists w. split; [reflexivity|assumption].
  - destruct (IH (log (EvStat x) w) w0 (same_world_log_stat x w0 w Hw)) as (w' & Hr & Hw').
    exists w'. split; [|assumption].
    cbn [filterM]. unfold bind at 1. unfold path_is_dir at 1.
    cbv [bind modify get ret]. unfold bind in Hr. fold (log (EvStat x) w).
    cbn [fs log]. unfold bind. rewrite Hr.
    destruct Hw as (Hfs & _). rewrite <- Hfs.
    cbn [List.filter].
    assert (Hx : is_dir_in (fs w) x
                 = match fs w !! x with Some Dir => true | _ => false end)
      by reflexivity.
    rewrite Hx. destruct (fs w !! x) as [[|c]|]; reflexivity.
Qed.

Lemma iterdir_dir d w :
  fs w !! d = Some Dir ->
  iterdir d w = (Ok (List.filter (is_child_of d) (map fst (map_to_list (fs w)))),
                 log (EvList d) w).
Proof. intros H. cbv [iterdir bind modify get ret]. cbn [fs log]. rewrite H. reflexivity. Qed.

Lemma path_name_join d name : path_name (path_join d name) = name.
Proof. unfold path_name, path_join. rewrite last_snoc. reflexivity. Qed.

Lemma is_child_of_join d name : is_child_of d (path_join d name) = true.
Proof.
  unfold is_child_of, path_join.
  destruct (d ++ [name])%list eqn:E.
  - destruct d; discriminate.
  - rewrite <- E. rewrite removelast_last. apply bool_decide_eq_true. reflexivity.
Qed.

Lemma is_child_of_inv d p :
  is_child_of d p = true -> p = path_join d (path_name p).
Proof.
  unfold is_child_of. destruct p as [|a p']; [discriminate|].
  intros H. apply bool_decide_eq_true in H.
  pose proof (@app_removelast_last _ (a :: p') "" ltac:(discriminate)) as Hp.
  rewrite H in Hp. remember (List.last (a :: p') "") as x eqn:Hx. clear Hx H.
  rewrite Hp. change (d ++ [x])%list with (path_join d x).
  rewrite path_name_join. reflexivity.
Qed.

(** The themes are the names of the subdirectories of the glyph root. *)
Lemma themes_subdirectories (m : gmap Path Node) (d : Path) (name : string) :
  name ∈ map path_name
         (List.filter (is_dir_in m)
            (List.filter (is_child_of d) (map fst (map_to_list m))))
  <-> m !! path_join d name = Some Dir.
Proof.
  rewrite list_elem_of_In, in_map_iff. split.
  - intros (p & Hn & Hp). apply filter_In in Hp as (Hp & Hdir).
    apply filter_In in Hp as (_ & Hchild).
    apply is_child_of_inv in Hchild. rewrite Hn in Hchild. rewrite <- Hchild.
    unfold is_dir_in in Hdir. destruct (m !! p) as [[|c]|]; congruence.
  - intros H. exists (path_join d name). split; [apply path_name_join|].
    apply filter_In. split.
    + apply filter_In. split; [|apply is_child_of_join].
      apply list_elem_of_In, list_elem_of_fmap. exists (path_join d name, Dir).
      split; [reflexivity|]. apply elem_of_map_to_list. exact H.
    + unfold is_dir_in. rewrite H. reflexivity.
Qed.

Lemma list_themes_ok w themes w1 :
  PieceImage.list_themes w = (Ok themes, w1) ->
  same_world w w1 /\
  (forall name : string,
     name ∈ themes <->
     fs w !! path_join (PieceImage.PIECE_LOCATION w) name = Some Dir).
Proof.
  unfold PieceImage.list_themes. unfold bind at 1. unfold get at 1.
  unfold bind at 1.
  destruct (fs w !! PieceImage.PIECE_LOCATION w) as [[|c]|] eqn:E.
  - rewrite (iterdir_dir _ _ E).
    destruct (filterM_is_dir
                (List.filter (is_child_of (PieceImage.PIECE_LOCATION w))
                             (map fst (map_to_list (fs w))))
                (log (EvList (PieceImage.PIECE_LOCATION w)) w) w)
      as (w' & Hr & Hw'); [repeat split|].
    unfold bind. rewrite Hr. unfold ret. intros H. inversion H; subst.
    split; [assumption|]. intros name. apply themes_subdirectories.
  - cbv [iterdir bind modify get ret raise]. cbn [fs log]. rewrite E. discriminate.
  - cbv [iterdir bind modify get ret raise]. cbn [fs log]. rewrite E. discriminate.
Qed.

(** C7. Construction lists the themes (the names of the subdirectories of
    the glyph root) and compares: with a theme that is not listed,
    [__init__] itself raises the configuration error
    [RuntimeError 'Piece theme "..." does not exist.'] and yields no
    provider, having started no process; with a listed theme it returns the
    provider, with an empty memory cache. *)
Theorem C7_theme_checked_at_construction (size : Z) (cfg : Config) (w : World)
    (themes : list string) (w1 : World) :
  PieceImage.list_themes w = (Ok themes, w1) ->
  (forall name : string,
     name ∈ themes <->
     fs w !! path_join (PieceImage.PIECE_LOCATION w) name = Some Dir) /\
  spawns w1 = spawns w /\
  (piece_theme cfg ∉ themes ->
   PieceImage.init size cfg w
     = (Raise (PieceImage.theme_error (piece_theme cfg)), w1)) /\
  (piece_theme cfg ∈ themes ->
   PieceImage.init size cfg w
     = (Ok {| PieceImage.size := size; PieceImage.config := cfg;
              PieceImage.cache := ∅ |}, w1)).
Proof.
  intros H. destruct (list_themes_ok w themes w1 H) as ((_ & _ & _ & Hs) & Hn).
  split; [exact Hn|]. split; [exact Hs|].
  unfold PieceImage.init, bind. rewrite H. split; intros Hin.
  - rewrite bool_decide_eq_false_2 by assumption. reflexivity.
  - rewrite bool_decide_eq_true_2 by assumption. reflexivity.
Qed.

Lemma C7_theme_checked_at_construction_witness :
  PieceImage.init 4 ex_bad_Config ex_world
    = (Raise (PieceImage.theme_error "merida"), snd (PieceImage.list_themes ex_world)) /\
  PieceImage.init 4 default_Config ex_world
    = (Ok ex_drawer, snd (PieceImage.list_themes ex_world)).
Proof.
  assert (H : PieceImage.list_themes ex_world
              = (Ok ["cburnett"], snd (PieceImage.list_themes ex_world)))
    by (vm_compute; reflexivity).
  split.
  - apply (C7_theme_checked_at_construction 4 ex_bad_Config ex_world _ _ H).
    vm_compute. intros Hin. apply list_elem_of_In in Hin. simpl in Hin.
    destruct Hin as [Hin|[]]. discriminate Hin.
  - apply (C7_theme_checked_at_construction 4 default_Config ex_world _ _ H).
    vm_compute. apply list_elem_of_here.
Defined.

(** ** Board renderer: one cell *)

Lemma py_getitem_SQUARES (i : Z) :
  0 <= i < 64 -> py_getitem SQUARES i = Some i.
Proof.
  intros Hi. unfold py_getitem, SQUARES. rewrite length_seqZ.
  replace (0 <=? i) with true by (symmetry; apply Z.leb_le; lia).
  replace (i <? Z.of_nat (Z.to_nat 64)) with true by (symmetry; apply Z.ltb_lt; lia).
  simpl andb. cbv iota. rewrite lookup_seqZ_lt by lia. f_equal. lia.
Qed.

Lemma get_square_at_on_board {S} (x y : Z) (st : S) :
  on_board x y -> FenToImage._get_square_at x y st = (Ok (cell_square x y), st).
Proof.
  intros [Hx Hy]. unfold FenToImage._get_square_at.
  fold (cell_square x y). rewrite py_getitem_SQUARES by (unfold cell_square; lia).
  reflexivity.
Qed.

Lemma py_getitem_pair {A} (a b : A) (i : Z) :
  py_getitem [a; b] (i mod 2) = Some (if i mod 2 =? 0 then a else b).
Proof.
  pose proof (Z.mod_pos_bound i 2 ltac:(lia)) as Hb.
  assert (H : i mod 2 = 0 \/ i mod 2 = 1) by lia.
  destruct H as [H|H]; rewrite H; reflexivity.
Qed.

Lemma pick_pair (a b : RGB) (i : Z) :
  pick [a; b] (i mod 2) = if i mod 2 =? 0 then a else b.
Proof. unfold pick. rewrite py_getitem_pair. reflexivity. Qed.

Lemma py_getitem_pick (a b : RGB) (i : Z) :
  py_getitem [a; b] (i mod 2) = Some (pick [a; b] (i mod 2)).
Proof. rewrite pick_pair. apply py_getitem_pair. Qed.

Lemma py_str_getitem_8 (s : string) (i : Z) :
  String.length s = 8%nat -> 0 <= i < 8 ->
  py_str_getitem s i = Some (char_at s i).
Proof.
  intros Hl Hi. unfold char_at.
  destruct (py_str_getitem s i) eqn:E; [reflexivity|exfalso].
  unfold py_str_getitem in E. destruct (py_getitem (list_ascii_of_string s) i) eqn:E2;
    [discriminate|].
  unfold py_getitem in E2.
  assert (Hlen : length (list_ascii_of_string s) = 8%nat).
  { rewrite <- Hl. clear. induction s; simpl; congruence. }
  rewrite Hlen in E2.
  replace (0 <=? i) with true in E2 by (symmetry; apply Z.leb_le; lia).
  replace (i <? Z.of_nat 8) with true in E2 by (symmetry; apply Z.ltb_lt; lia).
  simpl in E2. apply lookup_ge_None in E2. lia.
Qed.

Ltac run_board :=
  cbv [FenToImage._render_square_background FenToImage._render_square_location
       FenToImage._render_piece FenToImage.render_cell FenToImage.the_canvas
       FenToImage.draw_on
       FenToImage.self FenToImage.with_piece_drawer FenToImage._init_image
       bind ret raise get modify zoom lift_option lift_result fst snd].

Lemma background_on_board x y hl w s c :
  on_board x y -> FenToImage.image s = Some c ->
  FenToImage._render_square_background x y hl (w, s)
    = (Ok tt, (w, FenToImage.set_image (push (background_op s hl x y) c) s)).
Proof.
  intros Hb Hc. run_board.
  unfold SquareConfig.color, SquareConfig.highlight_color. rewrite !py_getitem_pick.
  rewrite (get_square_at_on_board x y _ Hb).
  unfold background_op.
  destruct (bool_decide (cell_square x y ∈ hl)); rewrite Hc; reflexivity.
Qed.

Lemma location_on_board x y w s c :
  on_board x y -> FenToImage.image s = Some c ->
  FenToImage._render_square_location x y (w, s)
    = (Ok tt, (w, FenToImage.set_image (push_all (label_ops s x y) c) s)).
Proof.
  intros [Hx Hy] Hc. run_board. unfold label_ops, TextConfig.color.
  rewrite !py_getitem_pick.
  rewrite (py_str_getitem_8 FenToImage.htext x eq_refl Hx).
  rewrite (py_str_getitem_8 FenToImage.vtext y eq_refl Hy).
  destruct (y =? 7), (x =? 7); rewrite ?Hc; cbn [FenToImage.image FenToImage.set_image];
    try reflexivity.
  destruct s, c. simpl in Hc. rewrite Hc. reflexivity.
Qed.

Lemma background_with_state x y hl w s d c :
  on_board x y ->
  FenToImage._render_square_background x y hl (w, with_state s d c)
    = (Ok tt, (w, with_state s d (push (background_op s hl x y) c))).
Proof.
  intros Hb. exact (background_on_board x y hl w (with_state s d c) c Hb eq_refl).
Qed.

Lemma location_with_state x y w s d c :
  on_board x y ->
  FenToImage._render_square_location x y (w, with_state s d c)
    = (Ok tt, (w, with_state s d (push_all (label_ops s x y) c))).
Proof.
  intros Hb. exact (location_on_board x y w (with_state s d c) c Hb eq_refl).
Qed.

Lemma piece_with_state x y w s d c :
  on_board x y ->
  FenToImage._render_piece x y (w, with_state s d c)
    = match FenToImage.board s (cell_square x y) with
      | None => (Ok tt, (w, with_state s d c))
      | Some piece =>
          match PieceImage.render piece (w, d) with
          | (Ok img, (w', d')) =>
              (Ok tt, (w', with_state s d' (push (glyph_op s x y img) c)))
          | (Raise e, (w', d')) => (Raise e, (w', with_state s d' c))
          end
      end.
Proof.
  intros Hb. unfold FenToImage._render_piece.
  cbv [FenToImage.self bind get ret]. cbn [snd].
  rewrite (get_square_at_on_board x y _ Hb).
  cbn [FenToImage.board with_state].
  destruct (FenToImage.board s (cell_square x y)) as [piece|]; [|reflexivity].
  cbv [FenToImage.with_piece_drawer zoom]. cbn [fst snd FenToImage.piece_drawer with_state].
  destruct (PieceImage.render piece (w, d)) as [[img|e] [w' d']]; reflexivity.
Qed.

Lemma render_cell_on_board hl x y s k :
  on_board x y ->
  FenToImage.render_cell hl x y (embed s k)
    = let '(r, k') := cell_core s hl (x, y) k in (r, embed s k').
Proof.
  intros Hb. destruct k as [[w d] c]. unfold embed at 1. unfold FenToImage.render_cell.
  unfold bind at 1. rewrite (background_with_state x y hl w s d c Hb).
  unfold bind at 1. unfold FenToImage.self at 1. cbv [bind get ret]. cbn [snd].
  unfold cell_core, decorated. cbn [FenToImage.text_config with_state].
  destruct (TextConfig.enabled (FenToImage.text_config s)).
  - rewrite (location_with_state x y w s d _ Hb).
    rewrite (piece_with_state x y w s d _ Hb).
    destruct (FenToImage.board s (cell_square x y)) as [piece|]; [|reflexivity].
    destruct (PieceImage.render piece (w, d)) as [[img|e] [w' d']]; reflexivity.
  - rewrite (piece_with_state x y w s d _ Hb).
    destruct (FenToImage.board s (cell_square x y)) as [piece|].
    + destruct (PieceImage.render piece (w, d)) as [[img|e] [w' d']];
        destruct c; reflexivity.
    + destruct c; reflexivity.
Qed.

(** ** Board renderer: the double loop *)

Lemma for_app {S A} (l1 l2 : list A) (f : A -> M S unit) (st : S) :
  for_ (l1 ++ l2) f st = bind (for_ l1 f) (fun _ => for_ l2 f) st.
Proof.
  revert st. induction l1 as [|a l1 IH]; intros st.
  - reflexivity.
  - cbn [for_ app]. unfold bind in *. destruct (f a st) as [[[]|e] st']; [|reflexivity].
    apply IH.
Qed.

Lemma for_map {S A B} (g : A -> B) (l : list A) (f : B -> M S unit) (st : S) :
  for_ (map g l) f st = for_ l (fun a => f (g a)) st.
Proof.
  revert st. induction l as [|a l IH]; intros st; [reflexivity|].
  cbn [for_ map]. unfold bind. destruct (f (g a) st) as [[[]|e] st']; [apply IH|reflexivity].
Qed.

Lemma for_nested {S} (xs ys : list Z) (f : Z -> Z -> M S unit) (st : S) :
  for_ xs (fun x => for_ ys (f x)) st
  = for_ (flat_map (fun x => map (pair x) ys) xs) (fun p => f (fst p) (snd p)) st.
Proof.
  revert st. induction xs as [|x xs IH]; intros st; [reflexivity|].
  cbn [for_ flat_map]. rewrite for_app. unfold bind.
  rewrite for_map. cbn [fst snd].
  destruct (for_ ys (fun a => f x a) st) as [[[]|e] st']; [apply IH|reflexivity].
Qed.

Lemma for_cells s hl (cells : list (Z * Z)) : forall k,
  Forall (fun p => on_board (fst p) (snd p)) cells ->
  for_ cells (fun p => FenToImage.render_cell hl (fst p) (snd p)) (embed s k)
  = let '(r, k') := cells_core s hl cells k in (r, embed s k').
Proof.
  induction cells as [|[x y] rest IH]; intros k Hall; [reflexivity|].
  inversion Hall as [|? ? Hb Hrest]; subst. cbn [for_ cells_core fst snd].
  unfold bind. cbn [fst snd] in Hb. rewrite (render_cell_on_board hl x y s k Hb).
  destruct (cell_core s hl (x, y) k) as [[[]|e] k']; [|reflexivity].
  apply IH. exact Hrest.
Qed.

Lemma grid_on_board : Forall (fun p => on_board (fst p) (snd p)) grid.
Proof. unfold grid, on_board. repeat constructor; simpl; lia. Qed.

(** [render] is: a blank canvas, then the 64 cells, then the canvas. *)
Lemma render_unfold hl w s :
  0 <= FenToImage.square_size s ->
  FenToImage.render hl (w, s)
  = match cells_core s hl grid
            (w, FenToImage.piece_drawer s, blank (FenToImage.square_size s * 8)) with
    | (Ok _, (w', d', c')) => (Ok c', (w', with_state s d' c'))
    | (Raise e, k') => (Raise e, embed s k')
    end.
Proof.
  intros Hs. unfold FenToImage.render. unfold bind at 1.
  unfold FenToImage._init_image. cbv [FenToImage.self bind get ret]. cbn [snd].
  unfold Image_new.
  replace (FenToImage.square_size s * 8 <? 0) with false by (symmetry; apply Z.ltb_ge; lia).
  cbn [orb lift_result]. cbv [ret modify]. cbn [fst snd].
  rewrite for_nested.
  change (w, FenToImage.set_image _ s)
    with (embed s (w, FenToImage.piece_drawer s, blank (FenToImage.square_size s * 8))).
  fold grid. rewrite (for_cells s hl grid _ grid_on_board).
  destruct (cells_core s hl grid _) as [[[]|e] [[w' d'] c']]; reflexivity.
Qed.

(** ** Geometry of the grid *)

Lemma cell_square_file_rank (x y : Z) :
  on_board x y ->
  0 <= cell_square x y < 64 /\
  square_file (cell_square x y) = x /\
  square_rank (cell_square x y) = 7 - y /\
  cell_square x y = chess_square x (7 - y).
Proof.
  intros [Hx Hy]. split; [unfold cell_square; lia|].
  split; [|split; [|unfold cell_square, chess_square; lia]].
  - unfold square_file. change 7 with (Z.ones 3). rewrite Z.land_ones by lia.
    unfold cell_square. change (2 ^ 3) with 8.
    rewrite Z.add_mod, Z.mod_mul, Z.add_0_r, Z.mod_mod, Z.mod_small by lia. reflexivity.
  - unfold square_rank. rewrite Z.shiftr_div_pow2 by lia. change (2 ^ 3) with 8.
    unfold cell_square. rewrite Z.div_add by lia. rewrite Z.div_small by lia. lia.
Qed.

(** C3. For every grid cell [(col, row)] of the board, the square the
    renderer looks up is the one of file index [col] and rank index
    [7 - row], of linear index [col + (7 - row) * 8] in the a1-first
    numbering, and the piece standing there is pasted at pixel offset
    [(col * size, row * size)].  So a8 is the square of cell (0, 0), drawn
    at offset (0, 0), and a1 the square of cell (0, 7), drawn at
    offset (0, 7 * size). *)
Theorem C3_cell_to_square (col row : Z) (w : World) (s : FenToImage.t)
    (d : PieceImage.t) (c : Canvas) :
  on_board col row ->
  FenToImage._get_square_at col row (w, s) = (Ok (col + (7 - row) * 8), (w, s)) /\
  square_file (col + (7 - row) * 8) = col /\
  square_rank (col + (7 - row) * 8) = 7 - row /\
  FenToImage._render_piece col row (w, with_state s d c)
    = match FenToImage.board s (col + (7 - row) * 8) with
      | None => (Ok tt, (w, with_state s d c))
      | Some piece =>
          match PieceImage.render piece (w, d) with
          | (Ok img, (w', d')) =>
              (Ok tt, (w', with_state s d'
                             (push (Paste img (col * FenToImage.square_size s)
                                          (row * FenToImage.square_size s) img) c)))
          | (Raise e, (w', d')) => (Raise e, (w', with_state s d' c))
          end
      end /\
  (FenToImage._get_square_at 0 0 (w, s) = (Ok A8, (w, s)) /\
   FenToImage._get_square_at 0 7 (w, s) = (Ok A1, (w, s)) /\
   forall img, glyph_op s 0 0 img = Paste img 0 0 img /\
               glyph_op s 0 7 img = Paste img 0 (7 * FenToImage.square_size s) img).
Proof.
  intros Hb. destruct (cell_square_file_rank col row Hb) as (_ & Hf & Hr & _).
  split; [exact (get_square_at_on_board col row (w, s) Hb)|].
  split; [exact Hf|]. split; [exact Hr|].
  split; [exact (piece_with_state col row w s d c Hb)|].
  split; [reflexivity|]. split; [reflexivity|].
  intros img. split; reflexivity.
Qed.

Lemma C3_cell_to_square_witness :
  FenToImage._get_square_at 0 0 (ex_world, ex_self) = (Ok 56, (ex_world, ex_self)) /\
  square_file 56 = 0 /\ square_rank 56 = 7.
Proof.
  destruct (C3_cell_to_square 0 0 ex_world ex_self ex_drawer (blank 32))
    as (H1 & H2 & H3 & _).
  - unfold on_board. lia.
  - split; [exact H1|]. split; [exact H2|exact H3].
Defined.

(** ** Canvas size and totality *)

Lemma cell_core_dims s hl cell w d c r w' d' c' :
  cell_core s hl cell (w, d, c) = (r, (w', d', c')) ->
  cw c' = cw c /\ ch c' = ch c.
Proof.
  destruct cell as [x y]. unfold cell_core.
  destruct (FenToImage.board s (cell_square x y)) as [piece|].
  - destruct (PieceImage.render piece (w, d)) as [[img|e] [w1 d1]];
      intros H; inversion H; subst; split; reflexivity.
  - intros H; inversion H; subst; split; reflexivity.
Qed.

Lemma cells_core_dims s hl cells : forall w d c r w' d' c',
  cells_core s hl cells (w, d, c) = (r, (w', d', c')) ->
  cw c' = cw c /\ ch c' = ch c.
Proof.
  induction cells as [|cell rest IH]; intros w d c r w' d' c' H.
  - inversion H; subst. split; reflexivity.
  - cbn [cells_core] in H.
    destruct (cell_core s hl cell (w, d, c)) as [[[]|e] [[w1 d1] c1]] eqn:E.
    + destruct (cell_core_dims _ _ _ _ _ _ _ _ _ _ E) as [E1 E2].
      destruct (IH _ _ _ _ _ _ _ H) as [E3 E4]. split; congruence.
    + inversion H; subst. exact (cell_core_dims _ _ _ _ _ _ _ _ _ _ E).
Qed.

Lemma render_healthy piece w d :
  healthy w d ->
  exists img w' d', PieceImage.render piece (w, d) = (Ok img, (w', d')) /\ healthy w' d'.
Proof.
  intros Hh.
  assert (Hkeep : forall r w' d', PieceImage.render piece (w, d) = (r, (w', d')) ->
                                  healthy w' d').
  { intros r w' d' H.
    destruct (render_frame piece w d r w' d' H) as (Hfs & Hm & Hx & Hsz & Hcf & _).
    destruct Hh as [Hd Hr]. split.
    - intros q node. unfold PieceImage.cache_path, PieceImage.CACHE_LOCATION.
      rewrite Hfs, Hm, Hsz, Hcf. apply Hd.
    - intros tr args. rewrite Hx. apply Hr. }
  destruct (lookup_cases w d piece) as [img E1|node E1 E2|E1 E2].
  - exists img, w, d. split; [exact (render_memory_hit _ _ _ _ E1)|exact Hh].
  - destruct (proj1 Hh piece node E2) as [img ->].
    pose proof (render_disk_hit _ _ _ _ E1 E2) as H.
    eexists _, _, _. split; [exact H|]. exact (Hkeep _ _ _ H).
  - pose proof (render_full_miss _ _ _ E1 E2) as H.
    destruct (proj2 Hh (trace (after_lookup w d piece))
                (PieceImage.inkscape_args w d piece)) as [img Hx].
    unfold rasterizer_outcome in H. rewrite Hx in H. simpl in H.
    eexists _, _, _. split; [exact H|]. exact (Hkeep _ _ _ H).
Qed.

Lemma cells_core_healthy s hl cells : forall w d c,
  healthy w d -> exists k', cells_core s hl cells (w, d, c) = (Ok tt, k').
Proof.
  induction cells as [|[x y] rest IH]; intros w d c Hh.
  - eexists. reflexivity.
  - cbn [cells_core cell_core].
    destruct (FenToImage.board s (cell_square x y)) as [piece|].
    + destruct (render_healthy piece w d Hh) as (img & w' & d' & Hr & Hh').
      rewrite Hr. apply IH. exact Hh'.
    + apply IH. exact Hh.
Qed.

Lemma cells_core_set_image c0 s hl cells : forall k,
  cells_core (FenToImage.set_image c0 s) hl cells k = cells_core s hl cells k.
Proof.
  induction cells as [|cell rest IH]; intros k; [reflexivity|].
  cbn [cells_core].
  replace (cell_core (FenToImage.set_image c0 s) hl cell k) with (cell_core s hl cell k)
    by (destruct s; reflexivity).
  destruct (cell_core s hl cell k) as [[[]|e] k']; [apply IH|reflexivity].
Qed.

(** C4. For every position and every positive square size, whatever the
    highlighted squares: an image returned by [FenToImage.render] is [8 *
    size] pixels wide and high and is the renderer's current canvas; the
    call does not depend on the canvas of an earlier call (it starts from a
    fresh one); and it does return an image whenever glyph acquisition
    cannot fail. *)
Theorem C4_canvas_size (hl : list Z) (w : World) (s : FenToImage.t) :
  0 < FenToImage.square_size s ->
  (forall c w' s',
     FenToImage.render hl (w, s) = (Ok c, (w', s')) ->
     cw c = 8 * FenToImage.square_size s /\
     ch c = 8 * FenToImage.square_size s /\
     FenToImage.image s' = Some c) /\
  (forall c0, FenToImage.render hl (w, FenToImage.set_image c0 s)
              = FenToImage.render hl (w, s)) /\
  (healthy w (FenToImage.piece_drawer s) ->
   exists c st', FenToImage.render hl (w, s) = (Ok c, st')).
Proof.
  intros Hs. split; [|split].
  - intros c w' s'. rewrite render_unfold by lia.
    destruct (cells_core s hl grid _) as [[[]|e] [[w1 d1] c1]] eqn:E; [|discriminate].
    intros H. inversion H; subst.
    destruct (cells_core_dims _ _ _ _ _ _ _ _ _ _ E) as [E1 E2].
    cbn [blank cw ch] in E1, E2. repeat split; try lia. 
  - intros c0. rewrite !render_unfold by (cbn; lia).
    rewrite cells_core_set_image. destruct s; reflexivity.
  - intros Hh. rewrite render_unfold by lia.
    destruct (cells_core_healthy s hl grid w (FenToImage.piece_drawer s)
                (blank (FenToImage.square_size s * 8)) Hh) as [[[w1 d1] c1] Hk].
    rewrite Hk. eexists _, _. reflexivity.
Qed.

Lemma healthy_ex_world : healthy ex_world ex_drawer.
Proof.
  split.
  - intros [[] []] node H; vm_compute in H; try discriminate.
    inversion H. eexists. reflexivity.
  - intros tr args. eexists. reflexivity.
Qed.

Lemma C4_canvas_size_witness :
  exists c st', FenToImage.render [A8] (ex_world, ex_self) = (Ok c, st') /\
                cw c = 32 /\ ch c = 32.
Proof.
  destruct (C4_canvas_size [A8] ex_world ex_self) as (H1 & _ & H3); [simpl; lia|].
  destruct (H3 healthy_ex_world) as (c & [w' s'] & Hr).
  exists c, (w', s'). split; [exact Hr|].
  destruct (H1 c w' s' Hr) as (Hw & Hh & _). split; assumption.
Defined.

(** ** Square colours *)

Lemma background_op_fill s hl x y :
  background_op s hl x y
  = Rectangle (x * FenToImage.square_size s) (y * FenToImage.square_size s)
              (x * FenToImage.square_size s + FenToImage.square_size s)
              (y * FenToImage.square_size s + FenToImage.square_size s)
              (parity_fill (FenToImage.square_config s)
                           (bool_decide (cell_square x y ∈ hl)) ((x + y) mod 2)).
Proof.
  unfold background_op, parity_fill, SquareConfig.color, SquareConfig.highlight_color.
  rewrite !pick_pair. reflexivity.
Qed.

Lemma getpixel_push_rectangle blend c x0 y0 x1 y1 fill px py :
  inside c px py = true -> in_rect x0 y0 x1 y1 px py = true ->
  getpixel blend (push (Rectangle x0 y0 x1 y1 fill) c) px py = Some fill.
Proof.
  intros Hi Hr. unfold getpixel.
  change (inside (push _ c) px py) with (inside c px py). rewrite Hi.
  cbn [push ops pixel_of_ops fold_right apply_op]. rewrite Hr. reflexivity.
Qed.

Lemma rectangle_fills_labels s x y : 
  omap (fun op => match op with Rectangle _ _ _ _ fill => Some fill | _ => None end)
       (label_ops s x y) = [].
Proof. unfold label_ops. destruct (x =? 7), (y =? 7); reflexivity. Qed.

Lemma rectangle_fills_decorated s hl x y c :
  rectangle_fills (decorated s hl x y c)
  = parity_fill (FenToImage.square_config s)
                (bool_decide (cell_square x y ∈ hl)) ((x + y) mod 2)
    :: rectangle_fills c.
Proof.
  unfold rectangle_fills, decorated. cbn [push_all push ops].
  rewrite omap_app. rewrite background_op_fill. cbn [omap list_omap].
  destruct (TextConfig.enabled (FenToImage.text_config s)); [rewrite rectangle_fills_labels|];
    reflexivity.
Qed.

Lemma cell_core_fills s hl x y w d c w' d' c' :
  cell_core s hl (x, y) (w, d, c) = (Ok tt, (w', d', c')) ->
  rectangle_fills c'
  = parity_fill (FenToImage.square_config s)
                (bool_decide (cell_square x y ∈ hl)) ((x + y) mod 2)
    :: rectangle_fills c.
Proof.
  unfold cell_core.
  destruct (FenToImage.board s (cell_square x y)) as [piece|].
  - destruct (PieceImage.render piece (w, d)) as [[img|e] [w1 d1]]; [|discriminate].
    intros H; inversion H; subst. 
    change (rectangle_fills (push _ ?c0)) with (rectangle_fills c0).
    apply rectangle_fills_decorated.
  - intros H; inversion H; subst. apply rectangle_fills_decorated.
Qed.

Lemma cells_core_plain_fills s cells : forall w d c w' d' c',
  cells_core s [] cells (w, d, c) = (Ok tt, (w', d', c')) ->
  exists fills, rectangle_fills c' = (fills ++ rectangle_fills c)%list /\
                length fills = length cells /\
                Forall (is_fill_color (FenToImage.square_config s)) fills.
Proof.
  induction cells as [|[x y] rest IH]; intros w d c w' d' c' H.
  - inversion H; subst. exists []. repeat split. constructor.
  - cbn [cells_core] in H.
    destruct (cell_core s [] (x, y) (w, d, c)) as [[[]|e] [[w1 d1] c1]] eqn:E;
      [|discriminate].
    destruct (IH _ _ _ _ _ _ H) as (fills & Hf & Hl & Ha).
    rewrite (cell_core_fills _ _ _ _ _ _ _ _ _ _ E) in Hf.
    exists (fills ++ [parity_fill (FenToImage.square_config s)
                        (bool_decide (cell_square x y ∈ [])) ((x + y) mod 2)])%list.
    split; [rewrite Hf, <- app_assoc; reflexivity|].
    split; [rewrite length_app; simpl; lia|].
    apply Forall_app. split; [exact Ha|]. constructor; [|constructor].
    rewrite bool_decide_eq_false_2 by apply not_elem_of_nil.
    unfold parity_fill, is_fill_color. destruct ((x + y) mod 2 =? 0); auto.
Qed.

(** C8. For every cell [(col, row)], [_render_square_background] fills the
    rectangle from [(col * size, row * size)] to [(col * size + size, row *
    size + size)] with the fill colour of parity [(col + row) mod 2], unless
    the cell's square is among the highlighted squares, in which case it
    uses the highlight colour of the same parity; every pixel of the cell
    has that colour afterwards.  With no highlighted square, the finished
    canvas holds 64 rectangles and each one is filled with the light or the
    dark fill colour: the highlight colours are not used. *)
Theorem C8_fill_or_highlight (blend : Z -> RGB -> RGB -> RGB) (col row : Z)
    (hl : list Z) (w : World) (s : FenToImage.t) (d : PieceImage.t) (c : Canvas) :
  on_board col row ->
  FenToImage._render_square_background col row hl (w, with_state s d c)
    = (Ok tt,
       (w, with_state s d
             (push (Rectangle (col * FenToImage.square_size s)
                              (row * FenToImage.square_size s)
                              (col * FenToImage.square_size s + FenToImage.square_size s)
                              (row * FenToImage.square_size s + FenToImage.square_size s)
                              (parity_fill (FenToImage.square_config s)
                                 (bool_decide (col + (7 - row) * 8 ∈ hl))
                                 ((col + row) mod 2))) c))) /\
  (forall px py,
     col * FenToImage.square_size s <= px < col * FenToImage.square_size s
                                           + FenToImage.square_size s ->
     row * FenToImage.square_size s <= py < row * FenToImage.square_size s
                                           + FenToImage.square_size s ->
     inside c px py = true ->
     getpixel blend
       (push (Rectangle (col * FenToImage.square_size s)
                        (row * FenToImage.square_size s)
                        (col * FenToImage.square_size s + FenToImage.square_size s)
                        (row * FenToImage.square_size s + FenToImage.square_size s)
                        (parity_fill (FenToImage.square_config s)
                           (bool_decide (col + (7 - row) * 8 ∈ hl))
                           ((col + row) mod 2))) c) px py
       = Some (parity_fill (FenToImage.square_config s)
                 (bool_decide (col + (7 - row) * 8 ∈ hl)) ((col + row) mod 2))) /\
  (0 <= FenToImage.square_size s ->
   forall canvas st',
     FenToImage.render [] (w, s) = (Ok canvas, st') ->
     length (rectangle_fills canvas) = 64%nat /\
     Forall (is_fill_color (FenToImage.square_config s)) (rectangle_fills canvas)).
Proof.
  intros Hb. split; [|split].
  - rewrite (background_with_state col row hl w s d c Hb), background_op_fill.
    reflexivity.
  - intros px py Hx Hy Hin.
    apply getpixel_push_rectangle; [exact Hin|].
    unfold in_rect. rewrite !andb_true_iff, !Z.leb_le. lia.
  - intros Hs canvas st'. rewrite render_unfold by exact Hs.
    destruct (cells_core s [] grid _) as [[[]|e] [[w1 d1] c1]] eqn:E; [|discriminate].
    intros H. inversion H; subst.
    destruct (cells_core_plain_fills _ _ _ _ _ _ _ _ E) as (fills & Hf & Hl & Ha).
    rewrite Hf. cbn [blank rectangle_fills ops omap list_omap]. rewrite app_nil_r.
    split; [exact Hl|exact Ha].
Qed.

Lemma C8_fill_or_highlight_witness :
  FenToImage._render_square_background 0 0 [A8]
      (ex_world, with_state ex_self ex_drawer (blank 32))
    = (Ok tt, (ex_world, with_state ex_self ex_drawer
                           (push (Rectangle 0 0 4 4 (205, 210, 106)) (blank 32)))) /\
  getpixel ex_blend (push (Rectangle 0 0 4 4 (205, 210, 106)) (blank 32)) 3 3
    = Some (205, 210, 106) /\
  (forall canvas st',
     FenToImage.render [] (ex_world, ex_self) = (Ok canvas, st') ->
     length (rectangle_fills canvas) = 64%nat /\
     Forall (is_fill_color SquareConfig.default) (rectangle_fills canvas)).
Proof.
  destruct (C8_fill_or_highlight ex_blend 0 0 [A8] ex_world ex_self ex_drawer (blank 32))
    as (H1 & H2 & H3); [unfold on_board; lia|].
  split; [exact H1|]. split.
  - apply (H2 3 3); [simpl; lia|simpl; lia|reflexivity].
  - apply H3. simpl. lia.
Defined.

(** C1 (as amended). For every cell [(col, row)]: the fill colour and the
    highlight colour are both selected by the index [(col + row) mod 2];
    the file letter drawn when [row = 7] takes the label colour of index
    [col mod 2] and the rank digit drawn when [col = 7] the label colour of
    index [row mod 2]; on those cells each of these indices is
    [1 - (col + row) mod 2], the entry opposite to the square's own. *)
Theorem C1_parity_indices (col row : Z) (hl : list Z) (w : World)
    (s : FenToImage.t) (d : PieceImage.t) (c : Canvas) :
  on_board col row ->
  FenToImage._render_square_background col row hl (w, with_state s d c)
    = (Ok tt,
       (w, with_state s d
             (push (Rectangle (col * FenToImage.square_size s)
                              (row * FenToImage.square_size s)
                              (col * FenToImage.square_size s + FenToImage.square_size s)
                              (row * FenToImage.square_size s + FenToImage.square_size s)
                              (parity_fill (FenToImage.square_config s)
                                 (bool_decide (col + (7 - row) * 8 ∈ hl))
                                 ((col + row) mod 2))) c))) /\
  FenToImage._render_square_location col row (w, with_state s d c)
    = (Ok tt,
       (w, with_state s d
             (push_all
                ((if col =? 7
                  then [Text (col * FenToImage.square_size s + FenToImage.square_size s
                              - TextConfig.padding (FenToImage.text_config s))
                             (row * FenToImage.square_size s
                              + TextConfig.padding (FenToImage.text_config s))
                             (char_at FenToImage.vtext row)
                             (label_fill (FenToImage.text_config s) (row mod 2))
                             anchor_rt (FenToImage.font s)]
                  else []) ++
                 (if row =? 7
                  then [Text (col * FenToImage.square_size s
                              + TextConfig.padding (FenToImage.text_config s))
                             (row * FenToImage.square_size s + FenToImage.square_size s
                              - TextConfig.padding (FenToImage.text_config s))
                             (char_at FenToImage.htext col)
                             (label_fill (FenToImage.text_config s) (col mod 2))
                             anchor_ls (FenToImage.font s)]
                  else []))%list c))) /\
  (row = 7 -> col mod 2 = 1 - (col + row) mod 2) /\
  (col = 7 -> row mod 2 = 1 - (col + row) mod 2).
Proof.
  intros Hb. split; [|split; [|split]].
  - rewrite (background_with_state col row hl w s d c Hb), background_op_fill.
    reflexivity.
  - rewrite (location_with_state col row w s d c Hb).
    unfold label_ops, rank_label_op, file_label_op, TextConfig.color, label_fill.
    rewrite !pick_pair. reflexivity.
  - intros ->. rewrite Z.add_mod by lia. change (7 mod 2) with 1.
    pose proof (Z.mod_pos_bound col 2 ltac:(lia)) as Hm.
    assert (H : col mod 2 = 0 \/ col mod 2 = 1) by lia.
    destruct H as [H|H]; rewrite H; reflexivity.
  - intros ->. rewrite Z.add_mod by lia. change (7 mod 2) with 1.
    pose proof (Z.mod_pos_bound row 2 ltac:(lia)) as Hm.
    assert (H : row mod 2 = 0 \/ row mod 2 = 1) by lia.
    destruct H as [H|H]; rewrite H; reflexivity.
Qed.

Lemma C1_parity_indices_witness :
  FenToImage._render_square_location 0 7
      (ex_world, with_state ex_self ex_drawer (blank 32))
    = (Ok tt, (ex_world, with_state ex_self ex_drawer
                           (push (Text 8 24 "a" (240, 217, 181) anchor_ls ex_font)
                                 (blank 32)))) /\
  0 mod 2 = 1 - (0 + 7) mod 2.
Proof.
  destruct (C1_parity_indices 0 7 [] ex_world ex_self ex_drawer (blank 32))
    as (_ & H2 & H3 & _); [unfold on_board; lia|].
  split; [exact H2|apply H3; reflexivity].
Defined.

(** C1 as stated fails: in the bottom-left cell (0, 7), a dark square, the
    file letter is drawn in the light label colour, not in the label colour
    of index [(0 + 7) mod 2]. *)
Lemma C1_label_color_counterexample :
  FenToImage._render_square_location 0 7
      (ex_world, with_state ex_self ex_drawer (blank 32))
    = (Ok tt, (ex_world, with_state ex_self ex_drawer
                           (push (Text 8 24 "a" (240, 217, 181) anchor_ls ex_font)
                                 (blank 32)))) /\
  py_getitem (TextConfig.color (FenToImage.text_config ex_self)) ((0 + 7) mod 2)
    = Some (148, 111, 81) /\
  (240, 217, 181) <> (148, 111, 81).
Proof. split; [reflexivity|]. split; [reflexivity|discriminate]. Qed.

(** ** Highlighting is an overlay *)

Section Overlay.

Variable blend : Z -> RGB -> RGB -> RGB.

Lemma agree_push_same D op c0 c1 :
  agree_outside blend D c0 c1 ->
  agree_outside blend D (push op c0) (push op c1).
Proof.
  intros (Hw & Hh & Hp). repeat split; [exact Hw|exact Hh|].
  intros px py Hn. cbn [push ops pixel_of_ops fold_right].
  fold (pixel_of_ops blend (ops c0) px py). fold (pixel_of_ops blend (ops c1) px py).
  rewrite (Hp px py Hn). reflexivity.
Qed.

Lemma agree_push_all_same D l c0 c1 :
  agree_outside blend D c0 c1 ->
  agree_outside blend D (push_all l c0) (push_all l c1).
Proof.
  intros (Hw & Hh & Hp). repeat split; [exact Hw|exact Hh|].
  intros px py Hn. cbn [push_all ops]. unfold pixel_of_ops in *.
  rewrite !fold_right_app. induction l as [|op l IH]; cbn [fold_right].
  - exact (Hp px py Hn).
  - rewrite IH. reflexivity.
Qed.

Lemma agree_push_rectangle D x0 y0 x1 y1 f0 f1 c0 c1 :
  agree_outside blend D c0 c1 ->
  agree_outside blend
    (fun px py => if decide (f0 = f1)
                  then D px py /\ in_rect x0 y0 x1 y1 px py = false
                  else D px py \/ in_rect x0 y0 x1 y1 px py = true)
    (push (Rectangle x0 y0 x1 y1 f0) c0) (push (Rectangle x0 y0 x1 y1 f1) c1).
Proof.
  intros (Hw & Hh & Hp). repeat split; [exact Hw|exact Hh|].
  intros px py Hn. cbn [push ops pixel_of_ops fold_right apply_op].
  fold (pixel_of_ops blend (ops c0) px py). fold (pixel_of_ops blend (ops c1) px py).
  destruct (in_rect x0 y0 x1 y1 px py) eqn:E.
  - destruct (decide (f0 = f1)) as [Hf|Hf]; [exact Hf|].
    exfalso. apply Hn. right. reflexivity.
  - apply Hp. intros HD. apply Hn.
    destruct (decide (f0 = f1)); [split; [exact HD|reflexivity]|left; exact HD].
Qed.

Lemma agree_weaken (D D' : Z -> Z -> Prop) c0 c1 :
  (forall px py, D px py -> D' px py) ->
  agree_outside blend D c0 c1 -> agree_outside blend D' c0 c1.
Proof.
  intros Hsub (Hw & Hh & Hp). repeat split; [exact Hw|exact Hh|].
  intros px py Hn. apply Hp. intros HD. apply Hn, Hsub, HD.
Qed.

Lemma decorated_agree s sq x y D c0 c1 :
  agree_outside blend D c0 c1 ->
  agree_outside blend (region_step (FenToImage.square_size s) sq (x, y) D)
    (decorated s [] x y c0) (decorated s [sq] x y c1).
Proof.
  intros Ha. unfold decorated. apply agree_push_all_same.
  unfold background_op.
  rewrite (bool_decide_eq_false_2 (cell_square x y ∈ [])) by apply not_elem_of_nil.
  eapply agree_weaken; [|apply agree_push_rectangle; exact Ha].
  intros px py. unfold region_step, cell_rect. cbn [fst snd].
  destruct (decide (cell_square x y = sq)) as [He|He].
  - rewrite (bool_decide_eq_true_2 _ He).
    rewrite (bool_decide_eq_true_2 (cell_square x y ∈ [sq]))
      by (apply list_elem_of_singleton; exact He).
    destruct (decide _); tauto.
  - rewrite (bool_decide_eq_false_2 _ He).
    rewrite (bool_decide_eq_false_2 (cell_square x y ∈ [sq]))
      by (rewrite list_elem_of_singleton; exact He).
    destruct (decide _) as [_|Hne]; [tauto|]. exfalso. apply Hne. reflexivity.
Qed.

Lemma cell_core_agree s sq cell D w d c0 c1 r w' d' c0' :
  agree_outside blend D c0 c1 ->
  cell_core s [] cell (w, d, c0) = (r, (w', d', c0')) ->
  exists c1',
    cell_core s [sq] cell (w, d, c1) = (r, (w', d', c1')) /\
    agree_outside blend (region_step (FenToImage.square_size s) sq cell D) c0' c1'.
Proof.
  intros Ha. destruct cell as [x y]. unfold cell_core.
  pose proof (decorated_agree s sq x y D c0 c1 Ha) as Hd.
  destruct (FenToImage.board s (cell_square x y)) as [piece|].
  - destruct (PieceImage.render piece (w, d)) as [[img|e] [w1 d1]];
      intros H; inversion H; subst; eexists; (split; [reflexivity|]).
    + apply agree_push_same. exact Hd.
    + exact Hd.
  - intros H; inversion H; subst. eexists. split; [reflexivity|exact Hd].
Qed.

Lemma cells_core_agree s sq cells : forall D w d c0 c1 r w' d' c0',
  agree_outside blend D c0 c1 ->
  cells_core s [] cells (w, d, c0) = (r, (w', d', c0')) ->
  exists c1',
    cells_core s [sq] cells (w, d, c1) = (r, (w', d', c1')) /\
    (r = Ok tt ->
     agree_outside blend (region_after (FenToImage.square_size s) sq cells D) c0' c1').
Proof.
  induction cells as [|cell rest IH]; intros D w d c0 c1 r w' d' c0' Ha H.
  - inversion H; subst. exists c1. split; [reflexivity|intros _; exact Ha].
  - cbn [cells_core] in H |- *.
    destruct (cell_core s [] cell (w, d, c0)) as [r1 [[w1 d1] c01]] eqn:E.
    destruct (cell_core_agree s sq cell D w d c0 c1 r1 w1 d1 c01 Ha E)
      as (c11 & E1 & Ha1).
    rewrite E1. destruct r1 as [[]|e].
    + exact (IH _ _ _ _ _ _ _ _ _ Ha1 H).
    + inversion H; subst. exists c11. split; [reflexivity|discriminate].
Qed.

End Overlay.

(** *** Where the two renderings may differ *)

Lemma region_after_char size sq cells : forall (D : Z -> Z -> Prop) px py,
  region_after size sq cells D px py ->
  (D px py /\ Forall (fun cell => cell_rect size cell px py = false) cells) \/
  (exists k cell,
     cells !! k = Some cell /\
     cell_square (fst cell) (snd cell) = sq /\
     cell_rect size cell px py = true /\
     Forall (fun cell' => cell_square (fst cell') (snd cell') <> sq ->
                          cell_rect size cell' px py = false)
            (drop (S k) cells)).
Proof.
  induction cells as [|cell rest IH]; intros D px py H.
  - left. split; [exact H|constructor].
  - cbn [region_after] in H. destruct (IH _ _ _ H) as [[HD Hrest]|Hex].
    + unfold region_step in HD.
      destruct (bool_decide (cell_square (fst cell) (snd cell) = sq)) eqn:Eb.
      * apply bool_decide_eq_true in Eb.
        destruct (cell_rect size cell px py) eqn:Er.
        -- right. exists O, cell. repeat split; try assumption.
           cbn [drop]. eapply Forall_impl; [exact Hrest|]. intros c' Hc _. exact Hc.
        -- left. destruct HD as [HD|HD]; [|discriminate].
           split; [exact HD|]. constructor; assumption.
      * left. destruct HD as [HD Hr]. split; [exact HD|]. constructor; assumption.
    + right. destruct Hex as (k & c & Hk & Hsq & Hr & Hlater).
      exists (S k), c. repeat split; assumption.
Qed.

Lemma grid_later (k : nat) (x y : Z) :
  grid !! k = Some (x, y) ->
  on_board x y /\
  (x < 7 -> (x + 1, y) ∈ drop (S k) grid) /\
  (y < 7 -> (x, y + 1) ∈ drop (S k) grid).
Proof.
  intros H. assert (Hk : (k < 64)%nat) by (apply lookup_lt_Some in H; exact H).
  do 64 (destruct k as [|k];
         [vm_compute in H; inversion H; subst; clear H;
          split; [unfold on_board; lia|];
          split; intros Hlt; try lia;
            apply (bool_decide_unpack _); vm_compute; exact I|]).
  lia.
Qed.

Lemma cell_rect_true size x y px py :
  cell_rect size (x, y) px py = true <->
  x * size <= px <= x * size + size /\ y * size <= py <= y * size + size.
Proof.
  unfold cell_rect, in_rect. rewrite !andb_true_iff, !Z.leb_le. tauto.
Qed.

Lemma cell_rect_false size x y px py :
  cell_rect size (x, y) px py = false ->
  ~ (x * size <= px <= x * size + size /\ y * size <= py <= y * size + size).
Proof.
  intros H Hin. apply cell_rect_true in Hin. congruence.
Qed.

(** On the finished canvas the two renderings can differ only inside the
    cell of the highlighted square: the one-pixel overflow of its rectangle
    to the right and below has been repainted by the cells drawn later. *)
Lemma region_grid_box size sq px py :
  0 <= size ->
  region_after size sq grid nowhere px py ->
  0 <= px < size * 8 -> 0 <= py < size * 8 ->
  cell_box size sq px py.
Proof.
  intros Hs H Hpx Hpy.
  destruct (region_after_char size sq grid nowhere px py H) as [[[] _]|Hex].
  destruct Hex as (k & [x y] & Hk & Hsq & Hr & Hlater).
  cbn [fst snd] in Hsq.
  destruct (grid_later k x y Hk) as (Hb & Hright & Hbelow).
  destruct (cell_square_file_rank x y Hb) as (Hrange & Hf & Hrk & _).
  rewrite Hsq in Hrange, Hf, Hrk.
  unfold cell_box. rewrite Hf, Hrk. split; [exact Hrange|].
  apply cell_rect_true in Hr. rewrite Forall_forall in Hlater.
  destruct Hb as [Hx Hy].
  assert (Hxr : x < 7 -> ~ ((x + 1) * size <= px <= (x + 1) * size + size /\
                            y * size <= py <= y * size + size)).
  { intros Hlt. apply cell_rect_false. apply (Hlater (x + 1, y)).
    - apply Hright, Hlt.
    - cbn [fst snd]. unfold cell_square in *. lia. }
  assert (Hyr : y < 7 -> ~ (x * size <= px <= x * size + size /\
                            (y + 1) * size <= py <= (y + 1) * size + size)).
  { intros Hlt. apply cell_rect_false. apply (Hlater (x, y + 1)).
    - apply Hbelow, Hlt.
    - cbn [fst snd]. unfold cell_square in *. lia. }
  replace ((7 - (7 - y)) * size) with (y * size) by lia.
  assert (Hx7 : x < 7 \/ x = 7) by lia. assert (Hy7 : y < 7 \/ y = 7) by lia.
  destruct Hx7 as [Hx7|Hx7], Hy7 as [Hy7|Hy7];
    try specialize (Hxr Hx7); try specialize (Hyr Hy7); try subst x; try subst y; lia.
Qed.

Lemma render_negative hl w s :
  FenToImage.square_size s < 0 ->
  FenToImage.render hl (w, s) = (Raise ValueError, (w, s)).
Proof.
  intros Hs. unfold FenToImage.render. unfold bind at 1.
  unfold FenToImage._init_image. cbv [FenToImage.self bind get ret]. cbn [snd].
  unfold Image_new.
  replace (FenToImage.square_size s * 8 <? 0) with true by (symmetry; apply Z.ltb_lt; lia).
  reflexivity.
Qed.

(** C9. For every position and every square [sq]: when rendering with no
    highlighted square returns a canvas, rendering with [sq] highlighted
    returns a canvas of the same size that has the same pixel everywhere
    outside the [size] by [size] cell of [sq] at its pixel offset (and the
    same world is left behind); when the one raises, so does the other,
    with the same exception. *)
Theorem C9_highlight_is_overlay (blend : Z -> RGB -> RGB -> RGB) (sq : Z)
    (w : World) (s : FenToImage.t) :
  (forall c0 st0,
     FenToImage.render [] (w, s) = (Ok c0, st0) ->
     exists c1 st1,
       FenToImage.render [sq] (w, s) = (Ok c1, st1) /\
       fst st1 = fst st0 /\
       cw c1 = cw c0 /\ ch c1 = ch c0 /\
       forall px py,
         ~ cell_box (FenToImage.square_size s) sq px py ->
         getpixel blend c1 px py = getpixel blend c0 px py) /\
  (forall e st0,
     FenToImage.render [] (w, s) = (Raise e, st0) ->
     exists st1, FenToImage.render [sq] (w, s) = (Raise e, st1)).
Proof.
  destruct (Z.lt_ge_cases (FenToImage.square_size s) 0) as [Hneg|Hs].
  { rewrite !render_negative by exact Hneg. split.
    - intros c0 st0 H. discriminate.
    - intros e st0 H. inversion H; subst. eexists. reflexivity. }
  rewrite !render_unfold by exact Hs.
  destruct (cells_core s [] grid _) as [r [[w' d'] c0']] eqn:E.
  assert (Ha : agree_outside blend nowhere (blank (FenToImage.square_size s * 8))
                             (blank (FenToImage.square_size s * 8)))
    by (repeat split).
  destruct (cells_core_agree blend s sq grid nowhere _ _ _ _ r w' d' c0' Ha E)
    as (c1' & E1 & Hagree).
  rewrite E1. split.
  - intros c0 st0 H. destruct r as [[]|e]; [|discriminate]. inversion H; subst.
    destruct (Hagree eq_refl) as (Hw & Hh & Hp).
    exists c1', (w', with_state s d' c1'). split; [reflexivity|]. split; [reflexivity|].
    split; [congruence|]. split; [congruence|].
    intros px py Hout. unfold getpixel, inside. rewrite <- Hw, <- Hh.
    destruct (cells_core_dims _ _ _ _ _ _ _ _ _ _ E) as [Hcw Hch].
    cbn [blank cw ch] in Hcw, Hch.
    destruct ((0 <=? px) && (px <? cw c0) && (0 <=? py) && (py <? ch c0)) eqn:Ein;
      [|reflexivity].
    f_equal. symmetry. apply Hp. intros Hreg. apply Hout.
    rewrite !andb_true_iff, !Z.leb_le, !Z.ltb_lt in Ein.
    apply (region_grid_box _ _ _ _ Hs Hreg); lia.
  - intros e st0 H. destruct r as [[]|e0]; [discriminate|]. inversion H; subst.
    eexists. reflexivity.
Qed.

Lemma C9_highlight_is_overlay_witness :
  exists c0 c1 st0 st1,
    FenToImage.render [] (ex_world, ex_self) = (Ok c0, st0) /\
    FenToImage.render [A8] (ex_world, ex_self) = (Ok c1, st1) /\
    getpixel ex_blend c1 5 2 = getpixel ex_blend c0 5 2.
Proof.
  destruct (FenToImage.render [] (ex_world, ex_self)) as [[c0|e] st0] eqn:E;
    [|vm_compute in E; discriminate].
  destruct (proj1 (C9_highlight_is_overlay ex_blend A8 ex_world ex_self) c0 st0 E)
    as (c1 & st1 & H1 & _ & _ & _ & Hp).
  exists c0, c1, st0, st1. split; [reflexivity|]. split; [exact H1|].
  apply Hp. unfold cell_box. vm_compute. intros (_ & (_ & H) & _). discriminate H.
Defined.

(** * Further properties of the glyph provider *)

(** X1. [piece_to_filename] yields a three-part name: the colour prefix
    ("w" for white, "b" for black), the upper-case kind letter, then the
    extension.  Distinct pieces get distinct names, and the names stay
    distinct when letter case is ignored. *)
Theorem X1_filename_token (p q : Piece) (ext : string) :
  PieceImage.piece_to_filename p ext
    = (if color p then "w" else "b") ++ py_upper (piece_symbol (piece_type p)) ++ ext /\
  (py_upper (PieceImage.piece_to_filename p "")
     = py_upper (PieceImage.piece_to_filename q "") -> p = q) /\
  (PieceImage.piece_to_filename p ext = PieceImage.piece_to_filename q ext -> p = q).
Proof.
  split; [|split].
  - destruct p as [[] []]; reflexivity.
  - destruct p as [[] []], q as [[] []]; vm_compute; congruence.
  - apply filename_inj.
Qed.

Lemma X1_filename_token_witness :
  PieceImage.piece_to_filename black_queen ".svg" = "bQ.svg" /\
  black_queen = black_queen.
Proof.
  destruct (X1_filename_token black_queen black_queen ".svg") as (H1 & _ & H3).
  split; [exact H1|apply H3; reflexivity].
Defined.

Lemma iterdir_missing d w :
  fs w !! d = None -> iterdir d w = (Raise FileNotFoundError, log (EvList d) w).
Proof. intros H. cbv [iterdir bind modify get ret raise]. cbn [fs log]. rewrite H. reflexivity. Qed.

Lemma iterdir_file d w c :
  fs w !! d = Some (File c) -> iterdir d w = (Raise NotADirectoryError, log (EvList d) w).
Proof. intros H. cbv [iterdir bind modify get ret raise]. cbn [fs log]. rewrite H. reflexivity. Qed.

(** X2. When the glyph root [assets/pieces] does not exist, [list_themes]
    raises [FileNotFoundError], and when it is a file,
    [NotADirectoryError]; [__init__] then fails with that same exception,
    whatever the theme, and not with the theme error.  Only the directory
    listing was attempted: no process is started. *)
Theorem X2_missing_glyph_root (size : Z) (cfg : Config) (w : World) :
  (fs w !! PieceImage.PIECE_LOCATION w = None ->
   PieceImage.list_themes w
     = (Raise FileNotFoundError, log (EvList (PieceImage.PIECE_LOCATION w)) w) /\
   PieceImage.init size cfg w
     = (Raise FileNotFoundError, log (EvList (PieceImage.PIECE_LOCATION w)) w)) /\
  (forall c, fs w !! PieceImage.PIECE_LOCATION w = Some (File c) ->
   PieceImage.list_themes w
     = (Raise NotADirectoryError, log (EvList (PieceImage.PIECE_LOCATION w)) w) /\
   PieceImage.init size cfg w
     = (Raise NotADirectoryError, log (EvList (PieceImage.PIECE_LOCATION w)) w)).
Proof.
  split.
  - intros H.
    assert (Hl : PieceImage.list_themes w
                 = (Raise FileNotFoundError, log (EvList (PieceImage.PIECE_LOCATION w)) w)).
    { unfold PieceImage.list_themes. unfold bind at 1. unfold get at 1.
      unfold bind at 1. rewrite (iterdir_missing _ _ H). reflexivity. }
    split; [exact Hl|]. unfold PieceImage.init, bind. rewrite Hl. reflexivity.
  - intros c H.
    assert (Hl : PieceImage.list_themes w
                 = (Raise NotADirectoryError, log (EvList (PieceImage.PIECE_LOCATION w)) w)).
    { unfold PieceImage.list_themes. unfold bind at 1. unfold get at 1.
      unfold bind at 1. rewrite (iterdir_file _ _ c H). reflexivity. }
    split; [exact Hl|]. unfold PieceImage.init, bind. rewrite Hl. reflexivity.
Qed.

Lemma X2_missing_glyph_root_witness :
  PieceImage.init 4 default_Config ex_rootless_world
    = (Raise FileNotFoundError,
       log (EvList (PieceImage.PIECE_LOCATION ex_rootless_world)) ex_rootless_world).
Proof.
  apply (proj1 (X2_missing_glyph_root 4 default_Config ex_rootless_world)).
  reflexivity.
Defined.

(** X3. [get_piece_from_cache] only reads: it leaves the provider as it
    was, starts no process and changes no file.  It returns [None] exactly
    when both tiers miss. *)
Theorem X3_cache_lookup_reads_only (piece : Piece) (w : World) (d : PieceImage.t)
    (r : result (option Image)) (w' : World) (d' : PieceImage.t) :
  PieceImage.get_piece_from_cache piece (w, d) = (r, (w', d')) ->
  d' = d /\ same_world w w' /\ (r = Ok None <-> cold w d piece).
Proof.
  unfold cold. run_monad.
  destruct (PieceImage.cache d !! symbol piece) as [img|] eqn:E1.
  - intros H. inversion H; subst. split; [reflexivity|]. split; [apply same_world_refl|].
    split; [discriminate|]. intros [Hc _]. discriminate.
  - cbn [fs log]. 
    destruct (fs w !! PieceImage.cache_path w d piece) as [[|[img|]]|] eqn:E2;
      cbn [fs log]; rewrite ?E2; intros H; inversion H; subst;
      (split; [reflexivity|]); (split; [repeat split|]);
      (split; [try discriminate|intros [_ Hc]; try discriminate]); auto.
Qed.

Lemma X3_cache_lookup_reads_only_witness :
  ex_drawer = ex_drawer /\
  same_world ex_world (after_lookup ex_world ex_drawer white_king) /\
  ((Ok None : result (option Image)) = Ok None <-> cold ex_world ex_drawer white_king).
Proof.
  apply (X3_cache_lookup_reads_only white_king ex_world ex_drawer (Ok None)
           (after_lookup ex_world ex_drawer white_king) ex_drawer).
  reflexivity.
Defined.

Lemma render_disk_bad piece w d node :
  PieceImage.cache d !! symbol piece = None ->
  fs w !! PieceImage.cache_path w d piece = Some node ->
  (forall img, node <> File (Png img)) ->
  PieceImage.render piece (w, d)
    = (Raise (open_error node),
       (log (EvOpen (PieceImage.cache_path w d piece)) (after_lookup w d piece), d)).
Proof.
  intros H1 H2 H3. run_monad. rewrite H1. simpl. rewrite H2. simpl. rewrite H2.
  destruct node as [|[img|]]; simpl; try reflexivity.
  exfalso. apply (H3 img). reflexivity.
Qed.



Lemma render_cold piece w d r w' d' :
  cold w d piece ->
  PieceImage.render piece (w, d) = (r, (w', d')) ->
  w' = after_spawn w d piece /\
  (d' = d \/ exists img, r = Ok img /\ d' = with_cached d (symbol piece) img) /\
  (forall e, r = Raise e -> d' = d).
Proof.
  intros [E1 E2] H. rewrite (render_full_miss piece w d E1 E2) in H.
  destruct (rasterizer_outcome w d piece) as [[rc out]|]; simpl in H.
  - destruct (rc =? 0); simpl in H.
    + destruct out as [[img|]|]; inversion H; subst;
        (split; [reflexivity|]); (split; [eauto|]); intros e He; try reflexivity;
        discriminate He.
    + inversion H; subst. repeat split; auto.
  - inversion H; subst. repeat split; auto.
Qed.

(** X5. On a full miss [render] starts exactly one process, whatever comes
    of it, after one probe of the disk cache.  Its command line is the
    configured executable, the theme's SVG file of the piece, [-w] with the
    provider's size in decimal, and [--export-type png -o -]. *)
Theorem X5_rasterizer_command_line (piece : Piece) (w : World) (d : PieceImage.t)
    (r : result Image) (w' : World) (d' : PieceImage.t) :
  cold w d piece ->
  PieceImage.render piece (w, d) = (r, (w', d')) ->
  spawns w' = S (spawns w) /\
  trace w'
  = EvSpawn [AStr (inkscape_location (PieceImage.config d));
             APath (module_dir w ++
                    ["assets"; "pieces"; piece_theme (PieceImage.config d);
                     PieceImage.piece_to_filename piece ".svg"])%list;
             AStr "-w"; AStr (py_str (PieceImage.size d));
             AStr "--export-type"; AStr "png"; AStr "-o"; AStr "-"]
    :: EvStat (module_dir w ++
               ["assets"; "cache"; piece_theme (PieceImage.config d);
                py_str (PieceImage.size d);
                PieceImage.piece_to_filename piece ".png"])%list
    :: trace w.
Proof.
  intros Hc H. destruct (render_cold piece w d r w' d' Hc H) as (-> & _ & _).
  split; [reflexivity|].
  unfold after_spawn, after_lookup, PieceImage.inkscape_args, PieceImage.svg_path,
    PieceImage.cache_path, PieceImage.PIECE_LOCATION, PieceImage.CACHE_LOCATION, path_join.
  cbn [trace log]. rewrite <- !app_assoc. reflexivity.
Qed.

Lemma X5_rasterizer_command_line_witness :
  trace (after_spawn ex_world ex_drawer white_king)
  = [EvSpawn [AStr "inkscape";
              APath ["pkg"; "assets"; "pieces"; "cburnett"; "wK.svg"];
              AStr "-w"; AStr "4"; AStr "--export-type"; AStr "png"; AStr "-o"; AStr "-"];
     EvStat ["pkg"; "assets"; "cache"; "cburnett"; "4"; "wK.png"]].
Proof.
  apply (X5_rasterizer_command_line white_king ex_world ex_drawer (Ok ex_glyph)
           (after_spawn ex_world ex_drawer white_king)
           (with_cached ex_drawer (symbol white_king) ex_glyph)).
  - split; reflexivity.
  - reflexivity.
Defined.

Lemma cold_after_spawn piece w d : cold w d piece -> cold (after_spawn w d piece) d piece.
Proof. intros H. exact H. Qed.

(** X6. Failures are not remembered: when a call of [render] on cold caches
    raises, the provider is unchanged and both caches are still cold, so the
    next call starts the rasterizer again. *)
Theorem X6_failures_not_cached (piece : Piece) (w : World) (d : PieceImage.t)
    (e : exn) (w1 : World) (d1 : PieceImage.t) :
  cold w d piece ->
  PieceImage.render piece (w, d) = (Raise e, (w1, d1)) ->
  d1 = d /\ cold w1 d1 piece /\ spawns w1 = S (spawns w) /\
  forall r2 w2 d2,
    PieceImage.render piece (w1, d1) = (r2, (w2, d2)) ->
    spawns w2 = S (S (spawns w)).
Proof.
  intros Hc H. destruct (render_cold piece w d _ w1 d1 Hc H) as (-> & _ & Hd).
  rewrite (Hd e eq_refl) in *. split; [reflexivity|].
  split; [exact (cold_after_spawn piece w d Hc)|]. split; [reflexivity|].
  intros r2 w2 d2 H2.
  destruct (render_cold piece _ d r2 w2 d2 (cold_after_spawn piece w d Hc) H2)
    as (-> & _ & _).
  reflexivity.
Qed.

Lemma X6_failures_not_cached_witness :
  ex_drawer = ex_drawer /\
  cold (after_spawn (ex_world_with ex_proc_fail) ex_drawer white_king) ex_drawer white_king /\
  spawns (after_spawn (ex_world_with ex_proc_fail) ex_drawer white_king)
    = S (spawns (ex_world_with ex_proc_fail)) /\
  forall r2 w2 d2,
    PieceImage.render white_king
      (after_spawn (ex_world_with ex_proc_fail) ex_drawer white_king, ex_drawer)
      = (r2, (w2, d2)) ->
    spawns w2 = S (S (spawns (ex_world_with ex_proc_fail))).
Proof.
  apply (X6_failures_not_cached white_king (ex_world_with ex_proc_fail) ex_drawer
           (RuntimeError "inkscape app error")).
  - split; reflexivity.
  - reflexivity.
Defined.

Lemma render_keeps_entries piece w d r w' d' key img :
  PieceImage.render piece (w, d) = (r, (w', d')) ->
  PieceImage.cache d !! key = Some img ->
  PieceImage.cache d' !! key = Some img.
Proof.
  intros H Hk.
  destruct (decide (key = symbol piece)) as [->|Hne].
  - rewrite (render_memory_hit _ _ _ _ Hk) in H. inversion H; subst. exact Hk.
  - destruct (render_frame piece w d r w' d' H) as (_ & _ & _ & _ & _ & Hc & _).
    rewrite (Hc key Hne). exact Hk.
Qed.

(** X7. The memory cache only grows: whatever pieces are rendered
    afterwards, and whether those calls succeed or fail, an entry of the
    memory cache stays there with the same image. *)
Theorem X7_cache_entries_stable (pieces : list Piece) (key : string) (img : Image) :
  forall (w : World) (d : PieceImage.t),
    PieceImage.cache d !! key = Some img ->
    PieceImage.cache (snd (render_each pieces (w, d))) !! key = Some img.
Proof.
  induction pieces as [|piece rest IH]; intros w d Hk; [exact Hk|].
  cbn [render_each].
  destruct (PieceImage.render piece (w, d)) as [r [w' d']] eqn:E. cbn [snd].
  apply IH. exact (render_keeps_entries piece w d r w' d' key img E Hk).
Qed.

Lemma X7_cache_entries_stable_witness :
  PieceImage.cache
    (snd (render_each [black_king; white_king; black_queen] (ex_world, ex_drawer_warm)))
    !! "K" = Some ex_glyph.
Proof.
  apply (X7_cache_entries_stable [black_king; white_king; black_queen] "K" ex_glyph).
  reflexivity.
Defined.

(** * Further properties of the board renderer *)

(** X8. A negative square size is only detected by [render]: the call
    raises [ValueError] before anything is drawn or looked up, leaving the
    world, the provider and the renderer's canvas as they were. *)
Theorem X8_negative_square_size (hl : list Z) (w : World) (s : FenToImage.t) :
  FenToImage.square_size s < 0 ->
  FenToImage.render hl (w, s) = (Raise ValueError, (w, s)).
Proof. apply render_negative. Qed.

Lemma X8_negative_square_size_witness :
  FenToImage.render [A8] (ex_world, ex_self_sized (-1) true ex_board)
  = (Raise ValueError, (ex_world, ex_self_sized (-1) true ex_board)).
Proof. apply X8_negative_square_size. simpl. lia. Defined.

(** ** Highlighted squares are a set *)

Lemma cell_core_same_highlights s hl1 hl2 x y k :
  (cell_square x y ∈ hl1 <-> cell_square x y ∈ hl2) ->
  cell_core s hl1 (x, y) k = cell_core s hl2 (x, y) k.
Proof.
  intros Hiff. destruct k as [[w d] c]. unfold cell_core, decorated, background_op.
  rewrite (bool_decide_ext _ _ Hiff). reflexivity.
Qed.

Lemma cells_core_same_highlights s hl1 hl2 cells : forall k,
  Forall (fun cell => cell_square (fst cell) (snd cell) ∈ hl1
                      <-> cell_square (fst cell) (snd cell) ∈ hl2) cells ->
  cells_core s hl1 cells k = cells_core s hl2 cells k.
Proof.
  induction cells as [|[x y] rest IH]; intros k Hall; [reflexivity|].
  inversion Hall as [|? ? Hc Hrest]; subst. cbn [cells_core].
  rewrite (cell_core_same_highlights s hl1 hl2 x y k Hc).
  destruct (cell_core s hl2 (x, y) k) as [[[]|e] k']; [apply IH; exact Hrest|reflexivity].
Qed.

(** X9. The highlighted squares act as a set of board squares: two
    argument lists with the same members among the squares 0..63 give the
    same outcome of [render], so order, repetition and numbers that are not
    squares of the board make no difference. *)
Theorem X9_highlights_are_a_set (hl1 hl2 : list Z) (w : World) (s : FenToImage.t) :
  (forall sq, 0 <= sq < 64 -> (sq ∈ hl1 <-> sq ∈ hl2)) ->
  FenToImage.render hl1 (w, s) = FenToImage.render hl2 (w, s).
Proof.
  intros Hiff.
  destruct (Z.lt_ge_cases (FenToImage.square_size s) 0) as [Hneg|Hs].
  - rewrite !render_negative by exact Hneg. reflexivity.
  - rewrite !render_unfold by exact Hs.
    rewrite (cells_core_same_highlights s hl1 hl2 grid); [reflexivity|].
    eapply Forall_impl; [exact grid_on_board|].
    intros [x y] Hb. cbn [fst snd] in *. apply Hiff.
    exact (proj1 (cell_square_file_rank x y Hb)).
Qed.

Lemma X9_highlights_are_a_set_witness :
  FenToImage.render [A8; A1; A8; 64] (ex_world, ex_self)
  = FenToImage.render [A1; A8] (ex_world, ex_self).
Proof.
  apply X9_highlights_are_a_set. intros sq Hsq.
  rewrite !list_elem_of_In. simpl. unfold A8, A1. split; intros H; lia.
Defined.

(** ** What a finished canvas holds *)

Lemma labels_of_label_ops s x y :
  omap label_of (label_ops s x y) = rev (cell_labels (x, y)).
Proof.
  unfold label_ops, cell_labels. cbn [fst snd].
  destruct (x =? 7), (y =? 7); reflexivity.
Qed.

Lemma omap_push_all {A} (f : DrawOp -> option A) l c :
  omap f (ops (push_all l c)) = (omap f l ++ omap f (ops c))%list.
Proof. cbn [push_all ops]. apply omap_app. Qed.

Lemma cell_core_census s hl cell w d c w' d' c' :
  cell_core s hl cell (w, d, c) = (Ok tt, (w', d', c')) ->
  omap label_of (ops c')
    = ((if TextConfig.enabled (FenToImage.text_config s)
        then rev (cell_labels cell) else []) ++ omap label_of (ops c))%list /\
  omap paste_of (ops c')
    = ((if occupied s cell then [cell_offset s cell] else []) ++ omap paste_of (ops c))%list.
Proof.
  destruct cell as [x y]. unfold cell_core, occupied, cell_offset. cbn [fst snd].
  assert (Hl : omap label_of (ops (decorated s hl x y c))
               = ((if TextConfig.enabled (FenToImage.text_config s)
                   then rev (cell_labels (x, y)) else [])
                  ++ omap label_of (ops c))%list).
  { unfold decorated. rewrite omap_push_all. cbn [push ops omap list_omap label_of background_op].
    destruct (TextConfig.enabled (FenToImage.text_config s));
      [rewrite labels_of_label_ops|]; reflexivity. }
  assert (Hp : omap paste_of (ops (decorated s hl x y c)) = omap paste_of (ops c)).
  { unfold decorated. rewrite omap_push_all. cbn [push ops omap list_omap paste_of background_op].
    destruct (TextConfig.enabled (FenToImage.text_config s)); [|reflexivity].
    unfold label_ops. destruct (x =? 7), (y =? 7); reflexivity. }
  destruct (FenToImage.board s (cell_square x y)) as [piece|].
  - destruct (PieceImage.render piece (w, d)) as [[img|e] [w1 d1]]; [|discriminate].
    intros H; inversion H; subst. cbn [push ops omap list_omap label_of paste_of glyph_op].
    fold (omap label_of (ops (decorated s hl x y c))).
    fold (omap paste_of (ops (decorated s hl x y c))).
    rewrite Hl, Hp. split; reflexivity.
  - intros H; inversion H; subst. rewrite Hl, Hp. split; reflexivity.
Qed.

Lemma cells_core_census s hl cells : forall w d c w' d' c',
  cells_core s hl cells (w, d, c) = (Ok tt, (w', d', c')) ->
  labels_drawn c'
    = (labels_drawn c ++
       (if TextConfig.enabled (FenToImage.text_config s)
        then flat_map cell_labels cells else []))%list /\
  pastes_drawn c'
    = (pastes_drawn c ++ map (cell_offset s) (List.filter (occupied s) cells))%list.
Proof.
  unfold labels_drawn, pastes_drawn.
  induction cells as [|cell rest IH]; intros w d c w' d' c' H.
  - inversion H; subst. cbn [flat_map List.filter map].
    destruct (TextConfig.enabled _); rewrite !app_nil_r; split; reflexivity.
  - cbn [cells_core] in H.
    destruct (cell_core s hl cell (w, d, c)) as [[[]|e] [[w1 d1] c1]] eqn:E;
      [|discriminate].
    destruct (cell_core_census _ _ _ _ _ _ _ _ _ E) as [Hl Hp].
    destruct (IH _ _ _ _ _ _ H) as [IHl IHp].
    rewrite IHl, IHp, Hl, Hp. cbn [flat_map List.filter].
    split.
    + destruct (TextConfig.enabled _).
      * rewrite rev_app_distr, rev_involutive, <- app_assoc. reflexivity.
      * rewrite !app_nil_r. reflexivity.
    + destruct (occupied s cell); cbn [map app rev].
      * rewrite <- app_assoc. reflexivity.
      * reflexivity.
Qed.



(** X13. A finished canvas carries one pasted glyph per occupied square,
    each at the top-left corner [(col * size, row * size)] of its cell, in
    the order the cells are visited (column by column, top to bottom). *)
Theorem X13_glyphs_pasted (hl : list Z) (w : World) (s : FenToImage.t)
    (c : Canvas) (st' : FenToImage.St) :
  FenToImage.render hl (w, s) = (Ok c, st') ->
  pastes_drawn c = map (cell_offset s) (List.filter (occupied s) grid).
Proof.
  destruct (Z.lt_ge_cases (FenToImage.square_size s) 0) as [Hneg|Hs].
  { rewrite render_negative by exact Hneg. discriminate. }
  rewrite render_unfold by exact Hs.
  destruct (cells_core s hl grid _) as [[[]|e] [[w1 d1] c1]] eqn:E; [|discriminate].
  intros H. inversion H; subst.
  destruct (cells_core_census _ _ _ _ _ _ _ _ _ E) as [_ Hp].
  rewrite Hp. reflexivity.
Qed.

Lemma X13_glyphs_pasted_witness :
  exists c st',
    FenToImage.render [] (ex_world, ex_self) = (Ok c, st') /\
    pastes_drawn c = [(0, 0); (0, 28)].
Proof.
  destruct (FenToImage.render [] (ex_world, ex_self)) as [[c|e] st'] eqn:E;
    [|vm_compute in E; discriminate].
  exists c, st'. split; [reflexivity|].
  exact (X13_glyphs_pasted [] ex_world ex_self c st' E).
Defined.

(** ** How many processes a rendering starts *)

Lemma filter_length_le {A} (f g : A -> bool) (l : list A) :
  (forall x, g x = true -> f x = true) ->
  (length (List.filter g l) <= length (List.filter f l))%nat.
Proof.
  intros Himp. induction l as [|a l IH]; [reflexivity|]. cbn [List.filter].
  destruct (g a) eqn:Eg.
  - rewrite (Himp a Eg). cbn [length]. lia.
  - destruct (f a); cbn [length]; lia.
Qed.

Lemma filter_length_lt {A} (f g : A -> bool) (l : list A) (a : A) :
  (forall x, g x = true -> f x = true) ->
  In a l -> f a = true -> g a = false ->
  (length (List.filter g l) < length (List.filter f l))%nat.
Proof.
  intros Himp Hin Hf Hg. induction l as [|b l IH]; [destruct Hin|].
  cbn [List.filter]. destruct Hin as [->|Hin].
  - rewrite Hf, Hg. cbn [length]. pose proof (filter_length_le f g l Himp). lia.
  - specialize (IH Hin). destruct (g b) eqn:Eg.
    + rewrite (Himp b Eg). cbn [length]. lia.
    + destruct (f b); cbn [length]; lia.
Qed.

Lemma missing_bound d : (missing d <= 12)%nat.
Proof.
  unfold missing. 
  pose proof (filter_length_le (fun _ => true) (is_missing d) all_pieces (fun _ _ => eq_refl)) as H.
  exact H.
Qed.

Lemma missing_pos d piece :
  PieceImage.cache d !! symbol piece = None -> (1 <= missing d)%nat.
Proof.
  intros H. unfold missing.
  pose proof (filter_length_lt (is_missing d) (fun _ => false) all_pieces piece) as Hlt.
  assert (Hz : length (List.filter (fun _ : Piece => false) all_pieces) = O) by reflexivity.
  rewrite Hz in Hlt. apply Hlt.
  - discriminate.
  - apply list_elem_of_In, all_pieces_complete.
  - unfold is_missing. rewrite H. reflexivity.
  - reflexivity.
Qed.

Lemma missing_with_cached d piece img :
  PieceImage.cache d !! symbol piece = None ->
  (missing (with_cached d (symbol piece) img) < missing d)%nat.
Proof.
  intros H. unfold missing.
  apply (filter_length_lt _ _ all_pieces piece).
  - intros q. unfold is_missing, with_cached. cbn [PieceImage.cache].
    destruct (decide (symbol piece = symbol q)) as [He|Hne].
    + rewrite He, lookup_insert_eq. discriminate.
    + rewrite lookup_insert_ne by exact Hne. tauto.
  - apply list_elem_of_In, all_pieces_complete.
  - unfold is_missing. rewrite H. reflexivity.
  - unfold is_missing, with_cached. cbn [PieceImage.cache]. rewrite lookup_insert_eq.
    reflexivity.
Qed.

Lemma render_potential piece w d r w' d' :
  PieceImage.render piece (w, d) = (r, (w', d')) ->
  (spawns w' <= spawns w + missing d)%nat /\
  (forall img, r = Ok img -> (spawns w' + missing d' <= spawns w + missing d)%nat).
Proof.
  intros H.
  destruct (lookup_cases w d piece) as [img0 E1|node E1 E2|E1 E2].
  - rewrite (render_memory_hit _ _ _ _ E1) in H. inversion H; subst. split; [lia|].
    intros; lia.
  - assert (Hs : spawns w' = spawns w /\ d' = d).
    { destruct node as [|[img0|]].
      + rewrite (render_disk_bad piece w d Dir E1 E2) in H by congruence.
        inversion H; subst. split; reflexivity.
      + rewrite (render_disk_hit _ _ _ _ E1 E2) in H. inversion H; subst.
        split; reflexivity.
      + rewrite (render_disk_bad piece w d (File Garbage) E1 E2) in H by congruence.
        inversion H; subst. split; reflexivity. }
    destruct Hs as [Hs ->]. split; [lia|]. intros; lia.
  - destruct (render_cold piece w d r w' d' (conj E1 E2) H) as (-> & Hd & _).
    pose proof (missing_pos d piece E1) as Hpos.
    assert (Hsp : spawns (after_spawn w d piece) = S (spawns w)) by reflexivity.
    rewrite Hsp. split; [lia|]. intros img ->.
    rewrite (render_full_miss piece w d E1 E2) in H.
    destruct (rasterizer_outcome w d piece) as [[rc out]|]; simpl in H; [|discriminate].
    destruct (rc =? 0); simpl in H; [|discriminate].
    destruct out as [[img0|]|]; inversion H; subst.
    pose proof (missing_with_cached d piece img E1). lia.
Qed.

Lemma cells_core_potential s hl cells : forall w d c r w' d' c',
  cells_core s hl cells (w, d, c) = (r, (w', d', c')) ->
  (spawns w' <= spawns w + missing d)%nat /\
  (r = Ok tt -> (spawns w' + missing d' <= spawns w + missing d)%nat).
Proof.
  induction cells as [|[x y] rest IH]; intros w d c r w' d' c' H.
  - inversion H; subst. split; [lia|]. intros; lia.
  - cbn [cells_core cell_core] in H.
    destruct (FenToImage.board s (cell_square x y)) as [piece|].
    + destruct (PieceImage.render piece (w, d)) as [[img|e] [w1 d1]] eqn:E.
      * destruct (render_potential piece w d _ w1 d1 E) as [_ Hok].
        specialize (Hok img eq_refl).
        destruct (IH _ _ _ _ _ _ _ H) as [H1 H2]. split; [lia|]. intros Hr.
        specialize (H2 Hr). lia.
      * destruct (render_potential piece w d _ w1 d1 E) as [Hle _].
        inversion H; subst. split; [exact Hle|discriminate].
    + exact (IH _ _ _ _ _ _ _ H).
Qed.

(** X14. One call of [FenToImage.render] starts at most one rasterizer
    process per piece identity that the provider's memory cache lacks, hence
    never more than 12, however many pieces stand on the board and whether
    the call succeeds or raises. *)
Theorem X14_spawn_bound (hl : list Z) (w : World) (s : FenToImage.t)
    (r : result Canvas) (w' : World) (s' : FenToImage.t) :
  FenToImage.render hl (w, s) = (r, (w', s')) ->
  (spawns w' <= spawns w + missing (FenToImage.piece_drawer s))%nat /\
  (spawns w' <= spawns w + 12)%nat.
Proof.
  intros H.
  assert (H1 : (spawns w' <= spawns w + missing (FenToImage.piece_drawer s))%nat).
  { destruct (Z.lt_ge_cases (FenToImage.square_size s) 0) as [Hneg|Hs].
    - rewrite render_negative in H by exact Hneg. inversion H; subst. lia.
    - rewrite render_unfold in H by exact Hs.
      destruct (cells_core s hl grid _) as [r1 [[w1 d1] c1]] eqn:E.
      destruct (cells_core_potential _ _ _ _ _ _ _ _ _ _ E) as [Hle _].
      destruct r1 as [[]|e]; inversion H; subst; exact Hle. }
  split; [exact H1|]. pose proof (missing_bound (FenToImage.piece_drawer s)). lia.
Qed.

Lemma X14_spawn_bound_witness :
  (spawns (fst (snd (FenToImage.render [] (ex_world, ex_self))))
   <= spawns ex_world + missing (FenToImage.piece_drawer ex_self))%nat /\
  (spawns (fst (snd (FenToImage.render [] (ex_world, ex_self))))
   <= spawns ex_world + 12)%nat.
Proof.
  apply (X14_spawn_bound [] ex_world ex_self
           (fst (FenToImage.render [] (ex_world, ex_self)))
           (fst (snd (FenToImage.render [] (ex_world, ex_self))))
           (snd (snd (FenToImage.render [] (ex_world, ex_self))))).
  destruct (FenToImage.render [] (ex_world, ex_self)) as [r [w' s']]. reflexivity.
Defined.

(** ** Rendering again *)

Lemma render_preserves_warm q w d r w' d' piece img :
  PieceImage.render q (w, d) = (r, (w', d')) ->
  warm w d piece img -> warm w' d' piece img.
Proof.
  intros H Hw.
  destruct (render_frame q w d r w' d' H) as (Hfs & Hm & _ & Hsz & Hcf & Hc & _).
  assert (Hpath : PieceImage.cache_path w' d' piece = PieceImage.cache_path w d piece).
  { unfold PieceImage.cache_path, PieceImage.CACHE_LOCATION. rewrite Hm, Hsz, Hcf.
    reflexivity. }
  destruct (decide (symbol piece = symbol q)) as [He|Hne].
  - apply symbol_inj in He. subst q.
    destruct (render_warm piece w d img Hw) as (w1 & Hr & _ & Hw1).
    rewrite Hr in H. inversion H; subst. exact Hw1.
  - unfold warm. rewrite (Hc _ Hne), Hpath, Hfs. exact Hw.
Qed.

Lemma cells_core_preserves_warm s hl cells piece img : forall w d c r w' d' c',
  cells_core s hl cells (w, d, c) = (r, (w', d', c')) ->
  warm w d piece img -> warm w' d' piece img.
Proof.
  induction cells as [|[x y] rest IH]; intros w d c r w' d' c' H Hw.
  - inversion H; subst. exact Hw.
  - cbn [cells_core cell_core] in H.
    destruct (FenToImage.board s (cell_square x y)) as [q|].
    + destruct (PieceImage.render q (w, d)) as [[img0|e] [w1 d1]] eqn:E.
      * apply (IH _ _ _ _ _ _ _ H).
        exact (render_preserves_warm q w d _ w1 d1 piece img E Hw).
      * inversion H; subst.
        exact (render_preserves_warm q w d _ w' d' piece img E Hw).
    + exact (IH _ _ _ _ _ _ _ H Hw).
Qed.

(** A pass that succeeded can be replayed on any provider at least as warm
    as the one it left behind: the replay succeeds, starts no process and
    leaves that provider as it is; with the same highlights and the same
    canvas to start from it draws the same canvas. *)
Lemma cells_core_replay s hlA cells : forall w d cA w' d' cA',
  cells_core s hlA cells (w, d, cA) = (Ok tt, (w', d', cA')) ->
  forall hlB wB dB cB,
    (forall piece img, warm w' d' piece img -> warm wB dB piece img) ->
    exists wB' cB',
      cells_core s hlB cells (wB, dB, cB) = (Ok tt, (wB', dB, cB')) /\
      spawns wB' = spawns wB /\
      (hlB = hlA -> cB = cA -> cB' = cA').
Proof.
  induction cells as [|[x y] rest IH]; intros w d cA w' d' cA' H hlB wB dB cB Hwarm.
  - inversion H; subst. exists wB, cB. repeat split. intros _ Hc. exact Hc.
  - cbn [cells_core cell_core] in H |- *.
    destruct (FenToImage.board s (cell_square x y)) as [q|].
    + destruct (PieceImage.render q (w, d)) as [[img|e] [w1 d1]] eqn:E; [|discriminate].
      pose proof (render_ok_warm q w d img w1 d1 E) as Hq1.
      pose proof (cells_core_preserves_warm _ _ _ _ _ _ _ _ _ _ _ _ H Hq1) as Hq'.
      destruct (render_warm q wB dB img (Hwarm q img Hq')) as (wB1 & Hr & Hs & _).
      rewrite Hr.
      destruct (IH _ _ _ _ _ _ H hlB wB1 dB
                   (push (glyph_op s x y img) (decorated s hlB x y cB)))
        as (wB' & cB' & Hk & Hs' & Heq).
      { intros piece img0 Hp.
        exact (render_preserves_warm q wB dB _ wB1 dB piece img0 Hr (Hwarm _ _ Hp)). }
      exists wB', cB'. split; [exact Hk|]. split; [congruence|].
      intros -> ->. apply Heq; reflexivity.
    + destruct (IH _ _ _ _ _ _ H hlB wB dB (decorated s hlB x y cB) Hwarm)
        as (wB' & cB' & Hk & Hs' & Heq).
      exists wB', cB'. split; [exact Hk|]. split; [exact Hs'|].
      intros -> ->. apply Heq; reflexivity.
Qed.

Lemma cells_core_with_state s d0 c0 hl cells : forall k,
  cells_core (with_state s d0 c0) hl cells k = cells_core s hl cells k.
Proof.
  induction cells as [|cell rest IH]; intros k; [reflexivity|].
  cbn [cells_core].
  replace (cell_core (with_state s d0 c0) hl cell k) with (cell_core s hl cell k)
    by reflexivity.
  destruct (cell_core s hl cell k) as [[[]|e] k']; [apply IH|reflexivity].
Qed.

(** X11. Once [FenToImage.render] has returned a canvas, rendering again on
    the same renderer, with any highlighted squares, succeeds without
    starting a process and leaves the glyph provider as it is; with the
    same highlighted squares it returns an identical canvas. *)
Theorem X11_render_again (hl : list Z) (w : World) (s : FenToImage.t)
    (c : Canvas) (w1 : World) (s1 : FenToImage.t) :
  FenToImage.render hl (w, s) = (Ok c, (w1, s1)) ->
  forall hl2, exists c2 w2 s2,
    FenToImage.render hl2 (w1, s1) = (Ok c2, (w2, s2)) /\
    spawns w2 = spawns w1 /\
    FenToImage.piece_drawer s2 = FenToImage.piece_drawer s1 /\
    (hl2 = hl -> c2 = c).
Proof.
  intros H hl2.
  destruct (Z.lt_ge_cases (FenToImage.square_size s) 0) as [Hneg|Hs].
  { rewrite render_negative in H by exact Hneg. discriminate. }
  rewrite render_unfold in H by exact Hs.
  destruct (cells_core s hl grid _) as [[[]|e] [[w' d'] c']] eqn:E; [|discriminate].
  inversion H; subst. clear H.
  rewrite render_unfold by exact Hs. cbn [with_state FenToImage.piece_drawer
                                          FenToImage.square_size].
  rewrite cells_core_with_state.
  destruct (cells_core_replay s hl grid _ _ _ _ _ _ E hl2 w1 d'
              (blank (FenToImage.square_size s * 8)) (fun _ _ Hp => Hp))
    as (w2 & c2 & Hk & Hsp & Heq).
  rewrite Hk. exists c2, w2, (with_state (with_state s d' c) d' c2).
  split; [reflexivity|]. split; [exact Hsp|]. split; [reflexivity|].
  intros Hhl. apply Heq; [exact Hhl|reflexivity].
Qed.

Lemma X11_render_again_witness :
  exists c w1 s1 w2 s2,
    FenToImage.render [A8] (ex_world, ex_self) = (Ok c, (w1, s1)) /\
    FenToImage.render [A8] (w1, s1) = (Ok c, (w2, s2)) /\
    spawns w2 = spawns w1.
Proof.
  destruct (FenToImage.render [A8] (ex_world, ex_self)) as [[c|e] [w1 s1]] eqn:E;
    [|vm_compute in E; discriminate].
  destruct (X11_render_again [A8] ex_world ex_self c w1 s1 E [A8])
    as (c2 & w2 & s2 & Hr & Hs & _ & Heq).
  exists c, w1, s1, w2, s2. split; [reflexivity|].
  rewrite <- (Heq eq_refl). split; [exact Hr|exact Hs].
Defined.

(** ** When the rasterizer is broken *)

Lemma grid_complete (x y : Z) : on_board x y -> In (x, y) grid.
Proof.
  intros [Hx Hy]. unfold grid. apply in_flat_map. exists x. split.
  - apply list_elem_of_In. unfold range. apply elem_of_seqZ. lia.
  - apply in_map. apply list_elem_of_In. unfold range. apply elem_of_seqZ. lia.
Qed.

Lemma render_broken piece w d :
  rasterizer_broken w -> cold w d piece ->
  exists w', PieceImage.render piece (w, d)
             = (Raise (RuntimeError "inkscape app error"), (w', d)).
Proof.
  intros Hb [E1 E2]. rewrite (render_full_miss piece w d E1 E2).
  unfold rasterizer_outcome.
  destruct (Hb (trace (after_lookup w d piece)) (PieceImage.inkscape_args w d piece))
    as (proc & Hp & Hrc).
  rewrite Hp. apply Z.eqb_neq in Hrc. rewrite Hrc. simpl. eexists. reflexivity.
Qed.

Lemma cells_core_broken s hl cells : forall w d c,
  rasterizer_broken w ->
  (forall sq piece, FenToImage.board s sq = Some piece -> cold w d piece) ->
  (exists cell, In cell cells /\ occupied s cell = true) ->
  exists k', cells_core s hl cells (w, d, c)
             = (Raise (RuntimeError "inkscape app error"), k').
Proof.
  induction cells as [|[x y] rest IH]; intros w d c Hb Hcold (cell & Hin & Hocc).
  - destruct Hin.
  - cbn [cells_core cell_core].
    destruct (FenToImage.board s (cell_square x y)) as [piece|] eqn:Eb.
    + destruct (render_broken piece w d Hb (Hcold _ _ Eb)) as (w' & Hr).
      rewrite Hr. eexists. reflexivity.
    + apply IH; [exact Hb|exact Hcold|].
      exists cell. split; [|exact Hocc].
      destruct Hin as [<-|Hin]; [|exact Hin].
      unfold occupied in Hocc. cbn [fst snd] in Hocc. rewrite Eb in Hocc. discriminate.
Qed.

(** X17. A rasterizer failure aborts the whole rendering: if a piece stands
    on some square of the board, no piece of the position is in either
    cache and the rasterizer exits with a non-zero status whenever it is
    run, then [FenToImage.render] raises [RuntimeError "inkscape app error"]
    and returns no canvas. *)
Theorem X17_rasterizer_failure_aborts (hl : list Z) (w : World) (s : FenToImage.t)
    (col row : Z) (piece : Piece) :
  0 <= FenToImage.square_size s ->
  on_board col row ->
  FenToImage.board s (col + (7 - row) * 8) = Some piece ->
  rasterizer_broken w ->
  (forall sq q, FenToImage.board s sq = Some q -> cold w (FenToImage.piece_drawer s) q) ->
  exists st', FenToImage.render hl (w, s)
              = (Raise (RuntimeError "inkscape app error"), st').
Proof.
  intros Hs Hb Hp Hbroken Hcold. rewrite render_unfold by exact Hs.
  destruct (cells_core_broken s hl grid w (FenToImage.piece_drawer s)
              (blank (FenToImage.square_size s * 8)) Hbroken Hcold) as (k' & Hk).
  { exists (col, row). split; [exact (grid_complete col row Hb)|].
    unfold occupied, cell_square. cbn [fst snd]. rewrite Hp. reflexivity. }
  rewrite Hk. eexists. reflexivity.
Qed.

Lemma ex_board_cold sq q :
  ex_board sq = Some q -> cold (ex_world_with ex_proc_fail) ex_drawer q.
Proof.
  unfold ex_board. destruct (sq =? A8); [|destruct (sq =? A1)]; intros H; inversion H;
    split; reflexivity.
Qed.

Lemma X17_rasterizer_failure_aborts_witness :
  exists st', FenToImage.render [A8] (ex_world_with ex_proc_fail, ex_self)
              = (Raise (RuntimeError "inkscape app error"), st').
Proof.
  apply (X17_rasterizer_failure_aborts [A8] (ex_world_with ex_proc_fail) ex_self
           0 0 black_king).
  - simpl. lia.
  - unfold on_board. lia.
  - reflexivity.
  - intros tr args. exists ex_proc_fail. split; [reflexivity|]. simpl. lia.
  - exact ex_board_cold.
Defined.

(** ** Cells off the board *)

(** X15. [_get_square_at] indexes [chess.SQUARES] the Python way: for a
    cell whose index [x + (7 - y) * 8] lies in 0..63 it returns that square;
    an index in -64..-1 (a row 8 to 15 of column 0..7, say) silently wraps
    around to the square [64] higher; any other index raises
    [IndexError].  The state is never changed. *)
Theorem X15_square_lookup_bounds (x y : Z) (w : World) (s : FenToImage.t) :
  (0 <= x + (7 - y) * 8 < 64 ->
   FenToImage._get_square_at x y (w, s) = (Ok (x + (7 - y) * 8), (w, s))) /\
  (-64 <= x + (7 - y) * 8 < 0 ->
   FenToImage._get_square_at x y (w, s) = (Ok (x + (7 - y) * 8 + 64), (w, s))) /\
  (x + (7 - y) * 8 < -64 \/ 64 <= x + (7 - y) * 8 ->
   FenToImage._get_square_at x y (w, s) = (Raise IndexError, (w, s))).
Proof.
  unfold FenToImage._get_square_at, py_getitem, SQUARES. rewrite length_seqZ.
  change (Z.of_nat (Z.to_nat 64)) with 64. change (Z.opp 64) with (-64).
  remember (x + (7 - y) * 8) as i eqn:Ei. clear Ei. split; [|split]; intros Hi.
  - replace (0 <=? i) with true by (symmetry; apply Z.leb_le; lia).
    replace (i <? 64) with true by (symmetry; apply Z.ltb_lt; lia).
    cbn [andb]. rewrite lookup_seqZ_lt by lia. unfold lift_option, ret.
    replace (0 + Z.of_nat (Z.to_nat i)) with i by lia. reflexivity.
  - replace (0 <=? i) with false by (symmetry; apply Z.leb_gt; lia).
    replace (-64 <=? i) with true by (symmetry; apply Z.leb_le; lia).
    replace (i <? 0) with true by (symmetry; apply Z.ltb_lt; lia).
    cbn [andb]. rewrite lookup_seqZ_lt by lia. unfold lift_option, ret.
    replace (0 + Z.of_nat (Z.to_nat (64 + i))) with (i + 64) by lia. reflexivity.
  - destruct Hi as [Hi|Hi].
    + replace (0 <=? i) with false by (symmetry; apply Z.leb_gt; lia).
      replace (-64 <=? i) with false by (symmetry; apply Z.leb_gt; lia).
      reflexivity.
    + replace (i <? 64) with false by (symmetry; apply Z.ltb_ge; lia).
      replace (i <? 0) with false by (symmetry; apply Z.ltb_ge; lia).
      rewrite !andb_false_r. reflexivity.
Qed.

Lemma X15_square_lookup_bounds_witness :
  FenToImage._get_square_at 3 4 (ex_world, ex_self) = (Ok 27, (ex_world, ex_self)) /\
  FenToImage._get_square_at 0 8 (ex_world, ex_self) = (Ok 56, (ex_world, ex_self)) /\
  FenToImage._get_square_at 8 0 (ex_world, ex_self) = (Raise IndexError, (ex_world, ex_self)).
Proof.
  split; [|split].
  - apply (proj1 (X15_square_lookup_bounds 3 4 ex_world ex_self)). lia.
  - apply (proj1 (proj2 (X15_square_lookup_bounds 0 8 ex_world ex_self))). lia.
  - apply (proj2 (proj2 (X15_square_lookup_bounds 8 0 ex_world ex_self))). right. lia.
Defined.

(** ** The bare checkerboard *)

Lemma plain_cells_core s hl cells : forall w d c,
  (forall sq, FenToImage.board s sq = None) ->
  TextConfig.enabled (FenToImage.text_config s) = false ->
  cells_core s hl cells (w, d, c) = (Ok tt, (w, d, paint_cells s hl cells c)).
Proof.
  induction cells as [|[x y] rest IH]; intros w d c Hb He; [reflexivity|].
  cbn [cells_core cell_core paint_cells fold_left fst snd].
  rewrite Hb. unfold decorated. rewrite He.
  change (push_all [] (push (background_op s hl x y) c))
    with (push (background_op s hl x y) c).
  apply IH; assumption.
Qed.

Lemma grid_index (x y : Z) :
  on_board x y -> grid !! Z.to_nat (x * 8 + y) = Some (x, y).
Proof.
  intros [Hx Hy].
  assert (Hxs : x = 0 \/ x = 1 \/ x = 2 \/ x = 3 \/ x = 4 \/ x = 5 \/ x = 6 \/ x = 7) by lia.
  assert (Hys : y = 0 \/ y = 1 \/ y = 2 \/ y = 3 \/ y = 4 \/ y = 5 \/ y = 6 \/ y = 7) by lia.
  destruct Hxs as [->|[->|[->|[->|[->|[->|[->| ->]]]]]]];
    destruct Hys as [->|[->|[->|[->|[->|[->|[->| ->]]]]]]]; reflexivity.
Qed.

Lemma grid_order (k : nat) (x y : Z) :
  grid !! k = Some (x, y) ->
  forallb (later_than x y) (drop (S k) grid) = true.
Proof.
  intros H. assert (Hk : (k < 64)%nat) by (apply lookup_lt_Some in H; exact H).
  do 64 (destruct k as [|k];
         [vm_compute in H; inversion H; subst; vm_compute; reflexivity|]).
  lia.
Qed.

Section Checkerboard.

Variable blend : Z -> RGB -> RGB -> RGB.

Lemma pixel_paint_uncovered s hl cells px py : forall c,
  Forall (fun cell => cell_rect (FenToImage.square_size s) cell px py = false) cells ->
  pixel_of_ops blend (ops (paint_cells s hl cells c)) px py
  = pixel_of_ops blend (ops c) px py.
Proof.
  induction cells as [|[x y] rest IH]; intros c Hall; [reflexivity|].
  inversion Hall as [|? ? Hc Hrest]; subst.
  cbn [paint_cells fold_left fst snd].
  change (fold_left _ rest ?c0) with (paint_cells s hl rest c0).
  rewrite (IH _ Hrest). unfold background_op.
  cbn [push ops pixel_of_ops fold_right apply_op].
  unfold cell_rect in Hc. rewrite Hc. reflexivity.
Qed.

Lemma pixel_paint_covered s hl pre x y post px py c :
  cell_rect (FenToImage.square_size s) (x, y) px py = true ->
  Forall (fun cell => cell_rect (FenToImage.square_size s) cell px py = false) post ->
  pixel_of_ops blend (ops (paint_cells s hl (pre ++ (x, y) :: post) c)) px py
  = parity_fill (FenToImage.square_config s)
                (bool_decide (cell_square x y ∈ hl)) ((x + y) mod 2).
Proof.
  intros Hc Hpost. unfold paint_cells. rewrite fold_left_app. cbn [fold_left fst snd].
  change (fold_left _ post ?c0) with (paint_cells s hl post c0).
  rewrite (pixel_paint_uncovered s hl post px py _ Hpost).
  rewrite background_op_fill. cbn [push ops pixel_of_ops fold_right apply_op].
  unfold cell_rect in Hc. rewrite Hc. reflexivity.
Qed.

End Checkerboard.

Lemma later_cells_uncovered size x y px py cell :
  0 <= size ->
  x * size <= px < x * size + size ->
  y * size <= py < y * size + size ->
  later_than x y cell = true ->
  cell_rect size cell px py = false.
Proof.
  intros Hs Hx Hy Hl. destruct cell as [x' y']. unfold later_than in Hl.
  cbn [fst snd] in Hl.
  destruct (cell_rect size (x', y') px py) eqn:E; [|reflexivity].
  apply cell_rect_true in E. exfalso.
  apply orb_true_iff in Hl. destruct Hl as [Hl|Hl].
  - apply Z.ltb_lt in Hl. nia.
  - apply andb_true_iff in Hl. destruct Hl as [He Hl].
    apply Z.eqb_eq in He. apply Z.ltb_lt in Hl. subst x'. nia.
Qed.

(** X10. For a position without pieces and with labels disabled, [render]
    touches neither the world nor the provider and returns the bare
    checkerboard: every pixel of the [size] by [size] cell at [(col * size,
    row * size)] has the fill colour of parity [(col + row) mod 2], or the
    highlight colour of that parity when the cell's square is
    highlighted. *)
Theorem X10_checkerboard (hl : list Z) (w : World) (s : FenToImage.t) :
  (forall sq, FenToImage.board s sq = None) ->
  TextConfig.enabled (FenToImage.text_config s) = false ->
  0 <= FenToImage.square_size s ->
  exists c,
    FenToImage.render hl (w, s) = (Ok c, (w, with_state s (FenToImage.piece_drawer s) c)) /\
    forall blend col row px py,
      on_board col row ->
      col * FenToImage.square_size s <= px < col * FenToImage.square_size s
                                            + FenToImage.square_size s ->
      row * FenToImage.square_size s <= py < row * FenToImage.square_size s
                                            + FenToImage.square_size s ->
      getpixel blend c px py
      = Some (parity_fill (FenToImage.square_config s)
                (bool_decide (col + (7 - row) * 8 ∈ hl)) ((col + row) mod 2)).
Proof.
  intros Hb He Hs. rewrite render_unfold by exact Hs.
  rewrite (plain_cells_core s hl grid _ _ _ Hb He).
  eexists. split; [reflexivity|].
  intros blend col row px py Hon Hx Hy.
  unfold getpixel, inside.
  assert (Hdim : cw (paint_cells s hl grid (blank (FenToImage.square_size s * 8)))
                 = FenToImage.square_size s * 8 /\
                 ch (paint_cells s hl grid (blank (FenToImage.square_size s * 8)))
                 = FenToImage.square_size s * 8) by (split; reflexivity).
  destruct Hdim as [-> ->].
  destruct Hon as [Hc Hr].
  replace ((0 <=? px) && (px <? FenToImage.square_size s * 8)
           && (0 <=? py) && (py <? FenToImage.square_size s * 8)) with true
    by (symmetry; rewrite !andb_true_iff, !Z.leb_le, !Z.ltb_lt; nia).
  f_equal.
  pose proof (grid_index col row (conj Hc Hr)) as Hk.
  rewrite <- (take_drop_middle grid _ _ Hk).
  apply pixel_paint_covered.
  - apply cell_rect_true. lia.
  - apply Forall_forall. intros cell Hin.
    apply (later_cells_uncovered _ col row px py cell Hs Hx Hy).
    pose proof (grid_order _ _ _ Hk) as Ho.
    rewrite forallb_forall in Ho. apply Ho. apply list_elem_of_In. exact Hin.
Qed.

Lemma X10_checkerboard_witness :
  exists c,
    FenToImage.render [A8] (ex_world, ex_self_sized 4 false empty_board)
      = (Ok c, (ex_world, with_state (ex_self_sized 4 false empty_board) ex_drawer c)) /\
    getpixel ex_blend c 3 0 = Some (205, 210, 106) /\
    getpixel ex_blend c 4 0 = Some (181, 136, 99).
Proof.
  destruct (X10_checkerboard [A8] ex_world (ex_self_sized 4 false empty_board))
    as (c & Hr & Hp); [reflexivity|reflexivity|simpl; lia|].
  exists c. split; [exact Hr|]. split.
  - apply (Hp ex_blend 0 0 3 0); [unfold on_board; lia|simpl; lia|simpl; lia].
  - apply (Hp ex_blend 1 0 4 0); [unfold on_board; lia|simpl; lia|simpl; lia].
Defined.

(** ** Constructing a renderer *)

(** X16. [FenToImage.__init__] checks its inputs in a fixed order.  A
    position string the parser rejects makes it fail at once, before the
    file system is looked at.  With a position, a theme that is not listed
    makes it fail with the theme error, and the font is never loaded.  With
    a listed theme, the outcome is that of loading the font: on success the
    renderer holds the position, a provider with an empty memory cache
    bound to the square size and the configuration, and no canvas yet.  The
    square size is not checked. *)
Theorem X16_construction_order (Board_of_fen : string -> result Board)
    (truetype : Path -> Z -> M World Font)
    (fen : string) (cfg : Config) (size : Z) (w : World) :
  (forall e, Board_of_fen fen = Raise e ->
     FenToImage.init Board_of_fen truetype fen cfg size w = (Raise e, w)) /\
  (forall b themes w1,
     Board_of_fen fen = Ok b ->
     PieceImage.list_themes w = (Ok themes, w1) ->
     (piece_theme cfg ∉ themes ->
      FenToImage.init Board_of_fen truetype fen cfg size w
        = (Raise (PieceImage.theme_error (piece_theme cfg)), w1)) /\
     (piece_theme cfg ∈ themes ->
      FenToImage.init Board_of_fen truetype fen cfg size w
        = match truetype (module_dir w1 ++ ["assets"; "NotoSans-Bold.ttf"])%list
                         (TextConfig.font_size (text cfg)) w1 with
          | (Ok f, w2) =>
              (Ok {| FenToImage.board := b; FenToImage.square_size := size;
                     FenToImage.config := cfg;
                     FenToImage.text_config := text cfg;
                     FenToImage.square_config := square cfg;
                     FenToImage.piece_drawer :=
                       {| PieceImage.size := size; PieceImage.config := cfg;
                          PieceImage.cache := ∅ |};
                     FenToImage.font := f;
                     FenToImage.image := None |}, w2)
          | (Raise e, w2) => (Raise e, w2)
          end)).
Proof.
  split.
  - intros e He. unfold FenToImage.init, bind. rewrite He. reflexivity.
  - intros b themes w1 Hb Hl.
    assert (Hinit : forall r,
              PieceImage.init size cfg w = r ->
              FenToImage.init Board_of_fen truetype fen cfg size w
              = match r with
                | (Ok d, w1) =>
                    match truetype (module_dir w1 ++ ["assets"; "NotoSans-Bold.ttf"])%list
                                   (TextConfig.font_size (text cfg)) w1 with
                    | (Ok f, w2) =>
                        (Ok {| FenToImage.board := b; FenToImage.square_size := size;
                               FenToImage.config := cfg;
                               FenToImage.text_config := text cfg;
                               FenToImage.square_config := square cfg;
                               FenToImage.piece_drawer := d;
                               FenToImage.font := f;
                               FenToImage.image := None |}, w2)
                    | (Raise e, w2) => (Raise e, w2)
                    end
                | (Raise e, w1) => (Raise e, w1)
                end).
    { intros r <-. unfold FenToImage.init. unfold bind at 1. rewrite Hb.
      cbn [lift_result]. unfold ret at 1. unfold bind at 1.
      destruct (PieceImage.init size cfg w) as [[d|e] w'] ; [|reflexivity].
      unfold bind at 1. unfold get at 1. unfold bind at 1. unfold path_join.
      rewrite <- app_assoc. cbn [app].
      destruct (truetype _ _ w') as [[f|e] w2]; reflexivity. }
    unfold PieceImage.init, bind in Hinit. rewrite Hl in Hinit. split; intros Hin.
    + rewrite (Hinit _ eq_refl). rewrite bool_decide_eq_false_2 by exact Hin. reflexivity.
    + rewrite (Hinit _ eq_refl). rewrite bool_decide_eq_true_2 by exact Hin. reflexivity.
Qed.

Lemma X16_construction_order_witness :
  FenToImage.init ex_Board_of_fen ex_truetype "not a position" default_Config 4 ex_world
    = (Raise ValueError, ex_world) /\
  FenToImage.init ex_Board_of_fen ex_truetype "k7/8/8/8/8/8/8/K7 w - - 0 1"
                  ex_bad_Config 4 ex_world
    = (Raise (PieceImage.theme_error "merida"), snd (PieceImage.list_themes ex_world)) /\
  FenToImage.init ex_Board_of_fen ex_truetype "k7/8/8/8/8/8/8/K7 w - - 0 1"
                  default_Config 4 ex_world
    = (Raise FileNotFoundError,
       log (EvOpen ["pkg"; "assets"; "NotoSans-Bold.ttf"])
           (snd (PieceImage.list_themes ex_world))) /\
  FenToImage.init ex_Board_of_fen ex_truetype "k7/8/8/8/8/8/8/K7 w - - 0 1"
                  default_Config 4 ex_font_world
    = (Ok ex_self,
       log (EvOpen ["pkg"; "assets"; "NotoSans-Bold.ttf"])
           (snd (PieceImage.list_themes ex_font_world))).
Proof.
  assert (H : PieceImage.list_themes ex_world
              = (Ok ["cburnett"], snd (PieceImage.list_themes ex_world)))
    by (vm_compute; reflexivity).
  assert (H' : PieceImage.list_themes ex_font_world
               = (Ok ["cburnett"], snd (PieceImage.list_themes ex_font_world)))
    by (vm_compute; reflexivity).
  split; [|split; [|split]].
  - apply (proj1 (X16_construction_order ex_Board_of_fen ex_truetype "not a position"
                    default_Config 4 ex_world)).
    reflexivity.
  - apply (proj1 (proj2 (X16_construction_order ex_Board_of_fen ex_truetype
                           "k7/8/8/8/8/8/8/K7 w - - 0 1" ex_bad_Config 4 ex_world)
                    ex_board _ _ eq_refl H)).
    vm_compute. intros Hin. apply list_elem_of_In in Hin. simpl in Hin.
    destruct Hin as [Hin|[]]. discriminate Hin.
  - rewrite (proj2 (proj2 (X16_construction_order ex_Board_of_fen ex_truetype
                             "k7/8/8/8/8/8/8/K7 w - - 0 1" default_Config 4 ex_world)
                      ex_board _ _ eq_refl H)).
    + vm_compute. reflexivity.
    + vm_compute. apply list_elem_of_here.
  - rewrite (proj2 (proj2 (X16_construction_order ex_Board_of_fen ex_truetype
                             "k7/8/8/8/8/8/8/K7 w - - 0 1" default_Config 4 ex_font_world)
                      ex_board _ _ eq_refl H')).
    + vm_compute. reflexivity.
    + vm_compute. apply list_elem_of_here.
Defined.

Lemma init_ok_fields Board_of_fen truetype fen cfg size w s w2 :
  FenToImage.init Board_of_fen truetype fen cfg size w = (Ok s, w2) ->
  FenToImage.square_size s = size /\
  FenToImage.piece_drawer s
    = {| PieceImage.size := size; PieceImage.config := cfg; PieceImage.cache := ∅ |} /\
  FenToImage.image s = None /\
  Board_of_fen fen = Ok (FenToImage.board s).
Proof.
  unfold FenToImage.init. unfold bind at 1.
  destruct (Board_of_fen fen) as [b|e]; [|discriminate].
  cbn [lift_result]. unfold ret at 1. unfold bind at 1.
  unfold PieceImage.init. unfold bind at 1.
  destruct (PieceImage.list_themes w) as [[themes|e] w1]; [|discriminate].
  destruct (bool_decide (piece_theme cfg ∈ themes)); [|discriminate].
  unfold ret at 1. unfold bind at 1. unfold get at 1. unfold bind at 1.
  destruct (truetype _ _ w1) as [[f|e] w3]; [|discriminate].
  unfold ret. intros H. inversion H; subst. repeat split; reflexivity.
Qed.

(** X18. A renderer that [__init__] returned renders canvases of 8 times
    the square size it was given, on every later call; a negative square
    size passes construction and makes every [render] raise
    [ValueError]. *)
Theorem X18_construct_then_render (Board_of_fen : string -> result Board)
    (truetype : Path -> Z -> M World Font)
    (fen : string) (cfg : Config) (size : Z) (w : World)
    (s : FenToImage.t) (w2 : World) :
  FenToImage.init Board_of_fen truetype fen cfg size w = (Ok s, w2) ->
  forall hl wr,
    (size < 0 -> FenToImage.render hl (wr, s) = (Raise ValueError, (wr, s))) /\
    (forall c st', FenToImage.render hl (wr, s) = (Ok c, st') ->
                   cw c = 8 * size /\ ch c = 8 * size).
Proof.
  intros H hl wr. destruct (init_ok_fields _ _ _ _ _ _ _ _ H) as (Hs & _).
  split.
  - intros Hneg. apply render_negative. lia.
  - intros c st'.
    destruct (Z.lt_ge_cases (FenToImage.square_size s) 0) as [Hneg|Hpos].
    { rewrite render_negative by exact Hneg. discriminate. }
    rewrite render_unfold by exact Hpos.
    destruct (cells_core s hl grid _) as [[[]|e] [[w1 d1] c1]] eqn:E; [|discriminate].
    intros Hr. inversion Hr; subst.
    destruct (cells_core_dims _ _ _ _ _ _ _ _ _ _ E) as [E1 E2].
    cbn [blank cw ch] in E1, E2. split; lia.
Qed.

Lemma X18_construct_then_render_witness :
  exists c st',
    FenToImage.render [A8] (ex_world, ex_self) = (Ok c, st') /\ cw c = 32 /\ ch c = 32.
Proof.
  assert (H : FenToImage.init ex_Board_of_fen ex_truetype "k7/8/8/8/8/8/8/K7 w - - 0 1"
                              default_Config 4 ex_font_world
              = (Ok ex_self,
                 log (EvOpen ["pkg"; "assets"; "NotoSans-Bold.ttf"])
                     (snd (PieceImage.list_themes ex_font_world))))
    by (vm_compute; reflexivity).
  destruct (FenToImage.render [A8] (ex_world, ex_self)) as [[c|e] st'] eqn:E;
    [|vm_compute in E; discriminate].
  exists c, st'. split; [reflexivity|].
  exact (proj2 (X18_construct_then_render _ _ _ _ _ _ _ _ H [A8] ex_world) c st' E).
Defined.

(** ** Two sets of highlighted squares *)

Section Overlay2.

Variable blend : Z -> RGB -> RGB -> RGB.

Lemma decorated_agree2 s hl1 hl2 x y D c1 c2 :
  agree_outside blend D c1 c2 ->
  agree_outside blend
    (region_step2 (FenToImage.square_size s) (differs hl1 hl2) (x, y) D)
    (decorated s hl1 x y c1) (decorated s hl2 x y c2).
Proof.
  intros Ha. unfold decorated. apply agree_push_all_same. unfold background_op.
  eapply agree_weaken; [|apply agree_push_rectangle; exact Ha].
  intros px py. unfold region_step2, cell_rect, differs. cbn [fst snd].
  destruct (bool_decide (cell_square x y ∈ hl1)), (bool_decide (cell_square x y ∈ hl2));
    cbn [xorb]; destruct (decide _) as [He|Hne]; try tauto;
    exfalso; apply Hne; reflexivity.
Qed.

Lemma cell_core_agree2 s hl1 hl2 cell D w d c1 c2 r w' d' c1' :
  agree_outside blend D c1 c2 ->
  cell_core s hl1 cell (w, d, c1) = (r, (w', d', c1')) ->
  exists c2',
    cell_core s hl2 cell (w, d, c2) = (r, (w', d', c2')) /\
    agree_outside blend
      (region_step2 (FenToImage.square_size s) (differs hl1 hl2) cell D) c1' c2'.
Proof.
  intros Ha. destruct cell as [x y]. unfold cell_core.
  pose proof (decorated_agree2 s hl1 hl2 x y D c1 c2 Ha) as Hd.
  destruct (FenToImage.board s (cell_square x y)) as [piece|].
  - destruct (PieceImage.render piece (w, d)) as [[img|e] [w1 d1]];
      intros H; inversion H; subst; eexists; (split; [reflexivity|]).
    + apply agree_push_same. exact Hd.
    + exact Hd.
  - intros H; inversion H; subst. eexists. split; [reflexivity|exact Hd].
Qed.

Lemma cells_core_agree2 s hl1 hl2 cells : forall D w d c1 c2 r w' d' c1',
  agree_outside blend D c1 c2 ->
  cells_core s hl1 cells (w, d, c1) = (r, (w', d', c1')) ->
  exists c2',
    cells_core s hl2 cells (w, d, c2) = (r, (w', d', c2')) /\
    (r = Ok tt ->
     agree_outside blend
       (region_after2 (FenToImage.square_size s) (differs hl1 hl2) cells D) c1' c2').
Proof.
  induction cells as [|cell rest IH]; intros D w d c1 c2 r w' d' c1' Ha H.
  - inversion H; subst. exists c2. split; [reflexivity|intros _; exact Ha].
  - cbn [cells_core] in H |- *.
    destruct (cell_core s hl1 cell (w, d, c1)) as [r1 [[w1 d1] c11]] eqn:E.
    destruct (cell_core_agree2 s hl1 hl2 cell D w d c1 c2 r1 w1 d1 c11 Ha E)
      as (c21 & E1 & Ha1).
    rewrite E1. destruct r1 as [[]|e].
    + exact (IH _ _ _ _ _ _ _ _ _ Ha1 H).
    + inversion H; subst. exists c21. split; [reflexivity|discriminate].
Qed.

End Overlay2.

(** A pixel of the region is one that the last cell covering it, a cell
    highlighted in one rendering only, painted. *)
Lemma region_after2_char size diff cells : forall (D : Z -> Z -> Prop) px py,
  region_after2 size diff cells D px py ->
  (D px py /\ Forall (fun cell => cell_rect size cell px py = false) cells) \/
  (exists k cell,
     cells !! k = Some cell /\
     diff (cell_square (fst cell) (snd cell)) = true /\
     cell_rect size cell px py = true /\
     Forall (fun cell' => cell_rect size cell' px py = false) (drop (S k) cells)).
Proof.
  induction cells as [|cell rest IH]; intros D px py H.
  - left. split; [exact H|constructor].
  - cbn [region_after2] in H. destruct (IH _ _ _ H) as [[HD Hrest]|Hex].
    + unfold region_step2 in HD.
      destruct (diff (cell_square (fst cell) (snd cell))) eqn:Ed.
      * destruct (cell_rect size cell px py) eqn:Er.
        -- right. exists O, cell. repeat split; assumption.
        -- left. destruct HD as [HD|HD]; [|discriminate].
           split; [exact HD|]. constructor; assumption.
      * left. destruct HD as [HD Hr]. split; [exact HD|]. constructor; assumption.
    + right. destruct Hex as (k & c & Hk & Hsq & Hr & Hlater).
      exists (S k), c. repeat split; assumption.
Qed.

Lemma region2_grid_box size diff px py :
  0 <= size ->
  region_after2 size diff grid nowhere px py ->
  0 <= px < size * 8 -> 0 <= py < size * 8 ->
  exists sq, diff sq = true /\ cell_box size sq px py.
Proof.
  intros Hs H Hpx Hpy.
  destruct (region_after2_char size diff grid nowhere px py H) as [[[] _]|Hex].
  destruct Hex as (k & [x y] & Hk & Hd & Hr & Hlater).
  cbn [fst snd] in Hd. exists (cell_square x y). split; [exact Hd|].
  destruct (grid_later k x y Hk) as (Hb & Hright & Hbelow).
  destruct (cell_square_file_rank x y Hb) as (Hrange & Hf & Hrk & _).
  unfold cell_box. rewrite Hf, Hrk. split; [exact Hrange|].
  apply cell_rect_true in Hr. rewrite Forall_forall in Hlater.
  destruct Hb as [Hx Hy].
  assert (Hxr : x < 7 -> ~ ((x + 1) * size <= px <= (x + 1) * size + size /\
                            y * size <= py <= y * size + size)).
  { intros Hlt. apply cell_rect_false. apply (Hlater (x + 1, y)). apply Hright, Hlt. }
  assert (Hyr : y < 7 -> ~ (x * size <= px <= x * size + size /\
                            (y + 1) * size <= py <= (y + 1) * size + size)).
  { intros Hlt. apply cell_rect_false. apply (Hlater (x, y + 1)). apply Hbelow, Hlt. }
  replace ((7 - (7 - y)) * size) with (y * size) by lia.
  assert (Hx7 : x < 7 \/ x = 7) by lia. assert (Hy7 : y < 7 \/ y = 7) by lia.
  destruct Hx7 as [Hx7|Hx7], Hy7 as [Hy7|Hy7];
    try specialize (Hxr Hx7); try specialize (Hyr Hy7); try subst x; try subst y; lia.
Qed.

(** X19. The pixels of a cell depend on the highlighted squares only
    through the cell's own square: when rendering a position with one list
    of highlighted squares returns a canvas, rendering it with another list
    returns a canvas that has the same pixel wherever the pixel lies in no
    cell, or in the cell of a square that both lists highlight or both
    leave out. *)
Theorem X19_highlights_are_local (blend : Z -> RGB -> RGB -> RGB) (hl1 hl2 : list Z)
    (w : World) (s : FenToImage.t) (c1 : Canvas) (st1 : FenToImage.St) :
  FenToImage.render hl1 (w, s) = (Ok c1, st1) ->
  exists c2 st2,
    FenToImage.render hl2 (w, s) = (Ok c2, st2) /\
    fst st2 = fst st1 /\
    forall px py,
      (forall sq, cell_box (FenToImage.square_size s) sq px py ->
                  (sq ∈ hl1 <-> sq ∈ hl2)) ->
      getpixel blend c2 px py = getpixel blend c1 px py.
Proof.
  destruct (Z.lt_ge_cases (FenToImage.square_size s) 0) as [Hneg|Hs].
  { rewrite render_negative by exact Hneg. discriminate. }
  rewrite !render_unfold by exact Hs.
  destruct (cells_core s hl1 grid _) as [r [[w' d'] c1']] eqn:E.
  assert (Ha : agree_outside blend nowhere (blank (FenToImage.square_size s * 8))
                             (blank (FenToImage.square_size s * 8)))
    by (repeat split).
  destruct (cells_core_agree2 blend s hl1 hl2 grid nowhere _ _ _ _ r w' d' c1' Ha E)
    as (c2' & E2 & Hagree).
  rewrite E2. destruct r as [[]|e]; [|discriminate].
  intros H. inversion H; subst.
  destruct (Hagree eq_refl) as (Hw & Hh & Hp).
  exists c2', (w', with_state s d' c2'). split; [reflexivity|]. split; [reflexivity|].
  intros px py Hsame. unfold getpixel, inside. rewrite <- Hw, <- Hh.
  destruct (cells_core_dims _ _ _ _ _ _ _ _ _ _ E) as [Hcw Hch].
  cbn [blank cw ch] in Hcw, Hch.
  destruct ((0 <=? px) && (px <? cw c1) && (0 <=? py) && (py <? ch c1)) eqn:Ein;
    [|reflexivity].
  f_equal. symmetry. apply Hp. intros Hreg.
  rewrite !andb_true_iff, !Z.leb_le, !Z.ltb_lt in Ein.
  destruct (region2_grid_box _ _ _ _ Hs Hreg) as (sq & Hd & Hbox); [lia|lia|].
  specialize (Hsame sq Hbox). unfold differs in Hd.
  rewrite (bool_decide_ext _ _ Hsame) in Hd.
  destruct (bool_decide (sq ∈ hl2)); discriminate Hd.
Qed.

Lemma X19_highlights_are_local_witness :
  exists c1 c2 st1 st2,
    FenToImage.render [A8] (ex_world, ex_self) = (Ok c1, st1) /\
    FenToImage.render [A1; A8] (ex_world, ex_self) = (Ok c2, st2) /\
    getpixel ex_blend c2 1 1 = getpixel ex_blend c1 1 1.
Proof.
  destruct (FenToImage.render [A8] (ex_world, ex_self)) as [[c1|e] st1] eqn:E;
    [|vm_compute in E; discriminate].
  destruct (X19_highlights_are_local ex_blend [A8] [A1; A8] ex_world ex_self c1 st1 E)
    as (c2 & st2 & H2 & _ & Hp).
  exists c1, c2, st1, st2. split; [reflexivity|]. split; [exact H2|].
  apply Hp. intros sq (Hr & (Hx1 & Hx2) & (Hy1 & Hy2)).
  assert (Hsq : sq = A8).
  { assert (Hf : square_file sq = 0).
    { cbn [FenToImage.square_size ex_self ex_self_with] in Hx1, Hx2. lia. }
    assert (Hk : square_rank sq = 7).
    { cbn [FenToImage.square_size ex_self ex_self_with] in Hy1, Hy2. lia. }
    unfold square_file in Hf. unfold square_rank in Hk.
    change 7 with (Z.ones 3) in Hf. rewrite Z.land_ones in Hf by lia.
    rewrite Z.shiftr_div_pow2 in Hk by lia. change (2 ^ 3) with 8 in *.
    unfold A8. pose proof (Z.div_mod sq 8 ltac:(lia)). lia. }
  subst sq. rewrite !list_elem_of_In. simpl. tauto.
Defined.
